(** * useQueryParam: a React hook bound to one URL query parameter

    Shallow embedding of [handleParam] and [useQueryParam]
    (src/hooks/useQueryParam.js, listed in the post
    content/posts/2019-09-05~hmc-bnn/hmc-bnn.mdx, lines 607-646) together
    with the browser interfaces the two functions call:
    [URLSearchParams], [location] and [history]; of the page that uses the
    hook (src/pages/blog.js, same post, lines 654-701); and of the photo
    index of the [Photos] view.

    Conventions.
    - A JavaScript string is a [string] of bytes (its UTF-8 encoding).
      Strings with unpaired surrogates have no counterpart here.  The last
      step of the query parser, UTF-8 decoding, is the identity on valid
      UTF-8 ([Utf8.valid]) and is modelled as the identity; a statement
      about the text of parameters the URL came with assumes them valid.
    - A URL is written from its path on: path, then optionally [?] and a
      query, then optionally [#] and a fragment.  The path of a document
      URL starts with [/].
    - The History API resolves the URL it is passed against the document
      URL ([navigate]) and is taken to accept it; a URL it refuses (one
      starting with [//] names another origin) is outside the embedding.
    - [historyState] ranges over the two methods the History API has,
      [replaceState] and [pushState]. *)

From Stdlib Require Import Bool Arith ZArith List Ascii String DecimalString Lia.
Import ListNotations.

Local Open Scope list_scope.
Local Open Scope string_scope.

(** ** Strings *)

Module Str.

Fixpoint all (p : ascii -> bool) (s : string) : bool :=
  match s with
  | EmptyString => true
  | String c r => p c && all p r
  end.

(** Longest prefix of [s] without a character satisfying [p]. *)
Fixpoint take_until (p : ascii -> bool) (s : string) : string :=
  match s with
  | EmptyString => EmptyString
  | String c r => if p c then EmptyString else String c (take_until p r)
  end.

(** Suffix of [s] from the first character satisfying [p] (included). *)
Fixpoint drop_until (p : ascii -> bool) (s : string) : string :=
  match s with
  | EmptyString => EmptyString
  | String c r => if p c then s else drop_until p r
  end.

(** Strict split of [s] at every occurrence of [c]. *)
Fixpoint split_on (c : ascii) (s : string) : list string :=
  match s with
  | EmptyString => [EmptyString]
  | String a r =>
      if Ascii.eqb a c then EmptyString :: split_on c r
      else match split_on c r with
           | h :: t => String a h :: t
           | [] => [String a EmptyString]
           end
  end.

Definition is_empty (s : string) : bool :=
  match s with EmptyString => true | _ => false end.

(** [s.replace(/\/$/, "")]: without the [m] flag [$] matches at the end of
    the input only, so one trailing slash is removed, if there is one. *)
Fixpoint strip_trailing_slash (s : string) : string :=
  match s with
  | EmptyString => EmptyString
  | String c r =>
      if Ascii.eqb c "/" && is_empty r then EmptyString
      else String c (strip_trailing_slash r)
  end.

Fixpoint ends_with_slash (s : string) : bool :=
  match s with
  | EmptyString => false
  | String c r => if is_empty r then Ascii.eqb c "/" else ends_with_slash r
  end.

End Str.

(** ** application/x-www-form-urlencoded (URL Standard, section 5) *)

Module Form.

Definition in_range (lo hi n : nat) : bool :=
  Nat.leb lo n && Nat.leb n hi.

(** Complement of the application/x-www-form-urlencoded percent-encode set:
    the ASCII alphanumerics and [*], [-], [.], [_]. *)
Definition is_unreserved (c : ascii) : bool :=
  let n := nat_of_ascii c in
  in_range 48 57 n || in_range 65 90 n || in_range 97 122 n
  || Nat.eqb n 42 || Nat.eqb n 45 || Nat.eqb n 46 || Nat.eqb n 95.

Definition hex_digit (n : nat) : ascii :=
  if Nat.ltb n 10 then ascii_of_nat (48 + n) else ascii_of_nat (55 + n).

Definition hex_value (c : ascii) : option nat :=
  let n := nat_of_ascii c in
  if in_range 48 57 n then Some (n - 48)
  else if in_range 65 70 n then Some (n - 55)
  else if in_range 97 102 n then Some (n - 87)
  else None.

(** Percent-encode one byte, with space as plus. *)
Definition encode_byte (c : ascii) : string :=
  if Ascii.eqb c " " then "+"
  else if is_unreserved c then String c EmptyString
  else let n := nat_of_ascii c in
       String "%" (String (hex_digit (n / 16))
                     (String (hex_digit (n mod 16)) EmptyString)).

Fixpoint encode (s : string) : string :=
  match s with
  | EmptyString => EmptyString
  | String c r => encode_byte c ++ encode r
  end.

Fixpoint plus_to_space (s : string) : string :=
  match s with
  | EmptyString => EmptyString
  | String c r =>
      String (if Ascii.eqb c "+" then " "%char else c) (plus_to_space r)
  end.

(** Percent-decode: a [%] not followed by two hexadecimal digits is kept. *)
Fixpoint percent_decode (s : string) : string :=
  match s with
  | EmptyString => EmptyString
  | String c r =>
      if Ascii.eqb c "%" then
        match r with
        | String h1 (String h2 r') =>
            match hex_value h1, hex_value h2 with
            | Some a, Some b =>
                String (ascii_of_nat (16 * a + b)) (percent_decode r')
            | _, _ => String c (percent_decode r)
            end
        | _ => String c (percent_decode r)
        end
      else String c (percent_decode r)
  end.

(** Name or value of a sequence: [+] to space, then percent-decoding.  The
    UTF-8 decoding that follows is the identity on valid UTF-8. *)
Definition decode (s : string) : string := percent_decode (plus_to_space s).

(** The characters the serializer emits for a name or a value. *)
Definition form_char (c : ascii) : bool :=
  is_unreserved c || Ascii.eqb c "+" || Ascii.eqb c "%".

Definition is_eq (c : ascii) : bool := Ascii.eqb c "=".

Definition serialize_pair (p : string * string) : string :=
  encode (fst p) ++ "=" ++ encode (snd p).

(** The serializer: pairs joined by [&]. *)
Fixpoint serialize (l : list (string * string)) : string :=
  match l with
  | [] => EmptyString
  | p :: r =>
      match r with
      | [] => serialize_pair p
      | _ :: _ => serialize_pair p ++ "&" ++ serialize r
      end
  end.

(** One non-empty sequence: name up to the first [=], value after it. *)
Definition parse_pair (seg : string) : string * string :=
  let name := Str.take_until is_eq seg in
  let value := match Str.drop_until is_eq seg with
               | String _ r => r
               | EmptyString => EmptyString
               end in
  (decode name, decode value).

(** The parser: split at [&], skip empty sequences. *)
Definition parse (s : string) : list (string * string) :=
  map parse_pair
    (filter (fun seg => negb (Str.is_empty seg)) (Str.split_on "&" s)).

End Form.

(** ** URLSearchParams *)

Inductive Value : Type :=
  | Undefined
  | Null
  | Text (s : string).

(** JavaScript's conversion to string, as applied by [URLSearchParams.set]
    to its second argument. *)
Definition to_string (v : Value) : string :=
  match v with
  | Undefined => "undefined"
  | Null => "null"
  | Text s => s
  end.

Module URLSearchParams.

Definition t : Type := list (string * string).

Definition named (k : string) (p : string * string) : bool :=
  String.eqb (fst p) k.

(** [new URLSearchParams(init)]: one leading [?] is dropped. *)
Definition create (init : string) : t :=
  match init with
  | String "?" r => Form.parse r
  | _ => Form.parse init
  end.

(** [get]: value of the first pair named [k], else [null]. *)
Fixpoint get (k : string) (l : t) : Value :=
  match l with
  | [] => Null
  | p :: r => if named k p then Text (snd p) else get k r
  end.

(** [delete]: removes every pair named [k]. *)
Definition delete (k : string) (l : t) : t :=
  filter (fun p => negb (named k p)) l.

(** [set]: the first pair named [k] takes value [v] and the other pairs
    named [k] go; when there is none the pair is appended. *)
Fixpoint set (k v : string) (l : t) : t :=
  match l with
  | [] => [(k, v)]
  | p :: r =>
      if named k p then (fst p, v) :: delete k r else p :: set k v r
  end.

Definition toString (l : t) : string := Form.serialize l.

Definition has (k : string) (l : t) : bool := existsb (named k) l.

Definition occurrences (k : string) (l : t) : nat :=
  List.length (filter (named k) l).

(** The other pairs, in order. *)
Definition others (k : string) (l : t) : t := delete k l.

End URLSearchParams.

(** ** URLs and [location] *)

Module Url.

Definition is_hash (c : ascii) : bool := Ascii.eqb c "#".
Definition is_delim (c : ascii) : bool := Ascii.eqb c "?" || Ascii.eqb c "#".

(** A character that can stand in a path. *)
Definition clean (c : ascii) : bool := negb (is_delim c).

(** [location.pathname]: the URL up to its query or fragment. *)
Definition pathname (u : string) : string := Str.take_until is_delim u.

(** [location.search]: [?] and the query, or the empty string when the
    query is missing or empty. *)
Definition search (u : string) : string :=
  match Str.drop_until is_delim u with
  | String "?" r =>
      let q := Str.take_until is_hash r in
      if Str.is_empty q then EmptyString else String "?" q
  | _ => EmptyString
  end.

End Url.

(** ** Options *)

Inductive HistoryState : Type := Replace | Push.

(** An options object; [None] is a key the object does not have. *)
Record Options : Type := mkOptions {
  historyState : option HistoryState;
  nullDeletes : option bool
}.

(** The object [{}]. *)
Definition no_options : Options := mkOptions None None.

(** [{ ...options, ...override }]. *)
Definition spread (options override : Options) : Options :=
  mkOptions
    (match historyState override with
     | Some m => Some m
     | None => historyState options
     end)
    (match nullDeletes override with
     | Some b => Some b
     | None => nullDeletes options
     end).

(** [const { historyState = `replace`, nullDeletes = true } = options]. *)
Definition historyState_of (o : Options) : HistoryState :=
  match historyState o with Some m => m | None => Replace end.

Definition nullDeletes_of (o : Options) : bool :=
  match nullDeletes o with Some b => b | None => true end.

(** ** Session history *)

(** An entry: the state object [{ path: value }] ([None] for an entry that
    has no state object) and the URL. *)
Record Entry : Type := mkEntry {
  entry_state : option Value;
  entry_url : string
}.

Record History : Type := mkHistory {
  back : list Entry;
  current : Entry;
  forward : list Entry
}.

(** [history.length]. *)
Definition entries (h : History) : nat :=
  List.length (back h) + 1 + List.length (forward h).

(** The document URL: the URL of the current entry. *)
Definition href (h : History) : string := entry_url (current h).

(** The URL an entry gets when [url] is passed to [replaceState] or
    [pushState] at the document URL [doc]: the empty string leaves the
    document URL as it is, query and fragment included; a reference that
    starts with [?] keeps the path of the document; any other is a path
    from the root, with its query. *)
Definition navigate (doc url : string) : string :=
  match url with
  | EmptyString => doc
  | String c _ => if Ascii.eqb c "?" then Url.pathname doc ++ url else url
  end.

(** [history.replaceState(data, title, url)]. *)
Definition replaceState (data : option Value) (url : string) (h : History)
    : History :=
  mkHistory (back h) (mkEntry data (navigate (href h) url)) (forward h).

(** [history.pushState(data, title, url)]. *)
Definition pushState (data : option Value) (url : string) (h : History)
    : History :=
  mkHistory (current h :: back h) (mkEntry data (navigate (href h) url)) [].

(** [history[historyState + `State`]]. *)
Definition commit (m : HistoryState)
    : option Value -> string -> History -> History :=
  match m with
  | Replace => replaceState
  | Push => pushState
  end.

(** ** handleParam *)

Definition is_null (v : Value) : bool :=
  match v with Null => true | _ => false end.

(** The parameters after the update (lines 613-622), with the value that
    [handleParam] returns. *)
Definition update (key : string) (value : Value) (options : Options)
    (params : URLSearchParams.t) : URLSearchParams.t * Value :=
  let value :=
    match value with
    | Undefined => URLSearchParams.get key params
    | _ => value
    end in
  if is_null value && nullDeletes_of options
  then (URLSearchParams.delete key params, value)
  else (URLSearchParams.set key (to_string value) params, value).

(** The target URL (lines 624-627). *)
Definition target_of (pathname : string) (params : URLSearchParams.t)
    : string :=
  Str.strip_trailing_slash pathname ++
  (if Str.is_empty (URLSearchParams.toString params) then EmptyString
   else "?" ++ URLSearchParams.toString params).

(** [handleParam] up to the call of the History API, at the URL [u]:
    the target URL and the returned value. *)
Definition resolve (u key : string) (value : Value) (options : Options)
    : string * Value :=
  let params := URLSearchParams.create (Url.search u) in
  let (params', value') := update key value options params in
  (target_of (Url.pathname u) params', value').

Definition resultingUrl (r : string * Value) : string := fst r.
Definition resolvedValue (r : string * Value) : Value := snd r.

(** [handleParam]: the target goes to the History API, with the state
    object [{ path: value }], by the method [historyState] names; the value
    is returned. *)
Definition handleParam (key : string) (value : Value) (options : Options)
    (h : History) : History * Value :=
  let (target, value') := resolve (href h) key value options in
  (commit (historyState_of options) (Some value') target h, value').

(** ** useQueryParam *)

(** The page: its session history and the [useState] cell of the hook
    ([None] until the first render). *)
Record Page : Type := mkPage {
  history : History;
  cell : option Value
}.

(** One render of a component that calls
    [useQueryParam(key, value, options)]: the argument of [useState] is
    evaluated, so [handleParam] runs; the cell takes that value on the first
    render only.  Returns the page and [param]. *)
Definition useQueryParam (key : string) (value : Value) (options : Options)
    (p : Page) : Page * Value :=
  let (h, v) := handleParam key value options (history p) in
  let param := match cell p with Some x => x | None => v end in
  (mkPage h (Some param), param).

(** The setter [(newValue, override) => setParam(handleParam(...))]. *)
Definition setParam (key : string) (options : Options)
    (newValue : Value) (override : Options) (p : Page) : Page :=
  let (h, v) := handleParam key newValue (spread options override)
                  (history p) in
  mkPage h (Some v).

(** ** Reading the state off a URL *)

(** The parameters in the query of a URL. *)
Definition params_of (u : string) : URLSearchParams.t :=
  URLSearchParams.create (Url.search u).

(** The parameters of the URL the page is at. *)
Definition params_at (h : History) : URLSearchParams.t :=
  params_of (href h).

(** ** Valid UTF-8 *)

Module Utf8.

Definition byte_in (lo hi : nat) (c : ascii) : bool :=
  Form.in_range lo hi (nat_of_ascii c).

Definition continuation : ascii -> bool := byte_in 128 191.

(** A lead byte of a three-byte sequence with a second byte it admits. *)
Definition three (a b : ascii) : bool :=
  (byte_in 224 224 a && byte_in 160 191 b)
  || (byte_in 225 236 a && continuation b)
  || (byte_in 237 237 a && byte_in 128 159 b)
  || (byte_in 238 239 a && continuation b).

(** A lead byte of a four-byte sequence with a second byte it admits. *)
Definition four (a b : ascii) : bool :=
  (byte_in 240 240 a && byte_in 144 191 b)
  || (byte_in 241 243 a && continuation b)
  || (byte_in 244 244 a && byte_in 128 143 b).

(** The well-formed byte sequences of UTF-8: those the decoder of
    [URLSearchParams] gives back as they are. *)
Fixpoint valid (s : string) : bool :=
  match s with
  | EmptyString => true
  | String a r =>
      if byte_in 0 127 a then valid r
      else
        match r with
        | EmptyString => false
        | String b r1 =>
            if byte_in 194 223 a then continuation b && valid r1
            else
              match r1 with
              | EmptyString => false
              | String c r2 =>
                  if byte_in 224 239 a
                  then three a b && continuation c && valid r2
                  else
                    match r2 with
                    | EmptyString => false
                    | String d r3 =>
                        four a b && continuation c && continuation d
                        && valid r3
                    end
              end
        end
  end.

(** Parameters whose names and values are valid UTF-8. *)
Definition all_valid (l : URLSearchParams.t) : bool :=
  forallb (fun p => valid (fst p) && valid (snd p)) l.

End Utf8.

(** ** Vocabulary of the statements *)

(** The path of the document after a commit of a target that is not empty:
    the path without its trailing slash, or the path itself when that
    leaves nothing (the target is then a query, and keeps the path). *)
Definition kept_path (pathname : string) : string :=
  if Str.is_empty (Str.strip_trailing_slash pathname) then pathname
  else Str.strip_trailing_slash pathname.

(** A request that writes: a string, or a [null] that deletes. *)
Definition writes (v : Value) (o : Options) : bool :=
  match v with
  | Text _ => true
  | Null => nullDeletes_of o
  | Undefined => false
  end.

(** The value of the last pair named [k]: the reading of duplicate keys
    under which the last occurrence wins. *)
Definition last_value (k : string) (l : URLSearchParams.t) : Value :=
  URLSearchParams.get k (rev l).

(** A path followed by the serialized parameters. *)
Definition url_of (path : string) (l : URLSearchParams.t) : string :=
  path ++
  (if Str.is_empty (URLSearchParams.toString l) then EmptyString
   else "?" ++ URLSearchParams.toString l).

(** A page freshly loaded at [u], before the hook has run. *)
Definition page_at (u : string) : Page :=
  mkPage (mkHistory [] (mkEntry None u) []) None.

(** ** A run of setter calls *)

(** The calls [setParam(newValue, override)] made one after the other. *)
Definition setParams (key : string) (options : Options)
    (calls : list (Value * Options)) (p : Page) : Page :=
  fold_left (fun q c => setParam key options (fst c) (snd c) q) calls p.

Definition is_push (m : HistoryState) : bool :=
  match m with Push => true | Replace => false end.

(** The calls of a run that commit with [pushState]. *)
Definition pushes (options : Options) (calls : list (Value * Options))
    : nat :=
  List.length
    (filter (fun c => is_push (historyState_of (spread options (snd c))))
       calls).

(** ** The blog page (src/pages/blog.js) *)

Module Blog.

(** A tag of [tags.group]; [slug] is [None] on an object without that
    property. *)
Record Tag : Type := mkTag {
  title : string;
  slug : option Value;
  count : nat
}.

(** [tag.slug]. *)
Definition slug_of (t : Tag) : Value :=
  match slug t with Some v => v | None => Undefined end.

(** [a === b] on the values a slug or the hook's state can be. *)
Definition strict_eq (a b : Value) : bool :=
  match a, b with
  | Undefined, Undefined => true
  | Null, Null => true
  | Text x, Text y => String.eqb x y
  | _, _ => false
  end.

(** Truthiness: [undefined], [null] and the empty string are falsy. *)
Definition truthy (v : Value) : bool :=
  match v with
  | Text s => negb (Str.is_empty s)
  | _ => false
  end.

(** [l.includes(x)] on strings. *)
Definition includes (x : string) (l : list string) : bool :=
  existsb (String.eqb x) l.

Section Page.

(** lodash's [kebabCase]. *)
Variable kebabCase : string -> string.

(** A post, with [node.frontmatter.tags]. *)
Variable Post : Type.
Variable frontmatter_tags : Post -> list string.

(** [{ slug: kebabCase(tag.title), ...tag }]: a slug the tag has already
    is spread over the computed one. *)
Definition addSlug (tag : Tag) : Tag :=
  mkTag (title tag)
    (match slug tag with
     | Some v => Some v
     | None => Some (Text (kebabCase (title tag)))
     end)
    (count tag).

Definition addSlugs (tags : list Tag) : list Tag := map addSlug tags.

Definition insertAllTag (tags : list Tag) (count : nat) : list Tag :=
  if negb (includes "All" (map title tags))
  then mkTag "All" (Some Null) count :: addSlugs tags
  else tags.

(** [tag] is [None] for [undefined], what [find] gives without a match. *)
Definition filterPostsByTag (tag : option Tag) (posts : list Post)
    : list Post :=
  match tag with
  | Some t =>
      if truthy (slug_of t)
      then filter (fun post => includes (title t) (frontmatter_tags post))
             posts
      else posts
  | None => posts
  end.

(** What one render of [BlogPage] hands to [TagList] and [PostList]. *)
Record View : Type := mkView {
  allTags : list Tag;
  activeTag : Value;
  filteredPosts : list Post
}.

Definition BlogPage (tags : list Tag) (posts : list Post) (p : Page)
    : Page * View :=
  let (p', activeTag) := useQueryParam "tag" Undefined no_options p in
  let allTags := insertAllTag tags (List.length posts) in
  let filteredPosts :=
    filterPostsByTag
      (find (fun tag => strict_eq (slug_of tag) activeTag) allTags) posts in
  (p', mkView allTags activeTag filteredPosts).

End Page.

Arguments filterPostsByTag {Post} frontmatter_tags tag posts.
Arguments View Post : clear implicits.
Arguments mkView {Post} allTags activeTag filteredPosts.
Arguments allTags {Post} v.
Arguments activeTag {Post} v.
Arguments filteredPosts {Post} v.
Arguments BlogPage kebabCase {Post} frontmatter_tags tags posts p.

(** [setActiveTag], the setter [BlogPage] gets from [useQueryParam(`tag`)]
    and passes to [TagList]. *)
Definition setActiveTag (newValue : Value) (p : Page) : Page :=
  setParam "tag" no_options newValue no_options p.

(** The [onClick] of a tag in [TagList], as the post gives it:
    [() => setActiveTag(tag.slug)]. *)
Definition onClick (tag : Tag) (p : Page) : Page :=
  setActiveTag (slug_of tag) p.

End Blog.

(** ** The photo index of the [Photos] view *)

Module Photos.

Section Photos.

(** A photo; [position] is its [{ lat, lng }]. *)
Variable Photo : Type.
Variable Position : Type.
Variable caption : Photo -> string.
Variable position : Photo -> Position.

(** A map marker, with the index its click listener passes to
    [setModal]. *)
Record Marker : Type := mkMarker {
  marker_position : Position;
  label : string;
  marker_title : string;
  click : Z
}.

(** [`${n}`] for a natural number. *)
Definition decimal (n : nat) : string :=
  NilEmpty.string_of_uint (Nat.to_uint n).

(** [photos.map(({ caption, lat, lng }, index) => ...)], from [index]. *)
Fixpoint markers_from (index : nat) (photos : list Photo) : list Marker :=
  match photos with
  | [] => []
  | photo :: rest =>
      mkMarker (position photo) (decimal (index + 1)) (caption photo)
        (Z.of_nat index)
      :: markers_from (S index) rest
  end.

(** The markers [addMarkers] creates. *)
Definition addMarkers (photos : list Photo) : list Marker :=
  markers_from 0 photos.

(** [modal >= 0 && modal < photos.length && photos[modal]] for an integer
    [modal]; [None] is the [false] of a failed comparison. *)
Definition currentPhoto (modal : Z) (photos : list Photo) : option Photo :=
  if (0 <=? modal)%Z && (modal <? Z.of_nat (List.length photos))%Z
  then nth_error photos (Z.to_nat modal)
  else None.

End Photos.

Arguments Marker Position : clear implicits.
Arguments mkMarker {Position} marker_position label marker_title click.
Arguments marker_position {Position} m.
Arguments label {Position} m.
Arguments marker_title {Position} m.
Arguments click {Position} m.
Arguments markers_from {Photo Position} caption position index photos.
Arguments addMarkers {Photo Position} caption position photos.
Arguments currentPhoto {Photo} modal photos.

End Photos.

(** * Facts *)

(** ** Strings *)

Module StrFacts.
Import Str.

Lemma append_nil_r (s : string) : s ++ "" = s.
Proof. induction s as [|c s IH]; simpl; [reflexivity | now rewrite IH]. Qed.

Lemma all_append (p : ascii -> bool) (a b : string) :
  all p (a ++ b) = all p a && all p b.
Proof.
  induction a as [|x a IH]; simpl; [reflexivity|].
  now rewrite IH, andb_assoc.
Qed.

Lemma all_impl (p q : ascii -> bool) (s : string) :
  (forall c, p c = true -> q c = true) -> all p s = true -> all q s = true.
Proof.
  intros Hpq. induction s as [|c s IH]; simpl; [reflexivity|].
  intros H. apply andb_true_iff in H as [Hc Hs].
  now rewrite (Hpq _ Hc), (IH Hs).
Qed.

Section Until.
Variable p : ascii -> bool.
Let np (c : ascii) : bool := negb (p c).

Lemma all_take_until (s : string) : all np (take_until p s) = true.
Proof.
  induction s as [|c s IH]; simpl; [reflexivity|].
  destruct (p c) eqn:E; simpl; [reflexivity|].
  unfold np at 1. now rewrite E, IH.
Qed.

Lemma take_until_all (a : string) :
  all np a = true -> take_until p a = a.
Proof.
  induction a as [|x a IH]; simpl; [reflexivity|].
  intros H. apply andb_true_iff in H as [Hx Ha].
  unfold np in Hx. apply negb_true_iff in Hx. now rewrite Hx, IH.
Qed.

Lemma drop_until_all (a : string) :
  all np a = true -> drop_until p a = "".
Proof.
  induction a as [|x a IH]; simpl; [reflexivity|].
  intros H. apply andb_true_iff in H as [Hx Ha].
  unfold np in Hx. apply negb_true_iff in Hx. now rewrite Hx, IH.
Qed.

Lemma take_until_app (a b : string) (c : ascii) :
  all np a = true -> p c = true -> take_until p (a ++ String c b) = a.
Proof.
  intros Ha Hc. induction a as [|x a IH]; simpl.
  - now rewrite Hc.
  - simpl in Ha. apply andb_true_iff in Ha as [Hx Ha].
    unfold np in Hx. apply negb_true_iff in Hx. now rewrite Hx, IH.
Qed.

Lemma drop_until_app (a b : string) (c : ascii) :
  all np a = true -> p c = true ->
  drop_until p (a ++ String c b) = String c b.
Proof.
  intros Ha Hc. induction a as [|x a IH]; simpl.
  - now rewrite Hc.
  - simpl in Ha. apply andb_true_iff in Ha as [Hx Ha].
    unfold np in Hx. apply negb_true_iff in Hx. now rewrite Hx, IH.
Qed.
End Until.

Section Split.
Variable c : ascii.
Let other (x : ascii) : bool := negb (Ascii.eqb x c).

Lemma split_on_all (a : string) :
  all other a = true -> split_on c a = [a].
Proof.
  induction a as [|x a IH]; simpl; [reflexivity|].
  intros H. apply andb_true_iff in H as [Hx Ha].
  unfold other in Hx. apply negb_true_iff in Hx.
  now rewrite Hx, (IH Ha).
Qed.

Lemma split_on_app (a b : string) :
  all other a = true ->
  split_on c (a ++ String c b) = a :: split_on c b.
Proof.
  induction a as [|x a IH]; simpl.
  - intros _. now rewrite Ascii.eqb_refl.
  - intros H. apply andb_true_iff in H as [Hx Ha].
    unfold other in Hx. apply negb_true_iff in Hx.
    now rewrite Hx, (IH Ha).
Qed.
End Split.

Lemma all_strip (q : ascii -> bool) (s : string) :
  all q s = true -> all q (strip_trailing_slash s) = true.
Proof.
  induction s as [|c s IH]; simpl; [reflexivity|].
  intros H. apply andb_true_iff in H as [Hc Hs].
  destruct (Ascii.eqb c "/" && is_empty s); simpl; [reflexivity|].
  now rewrite Hc, (IH Hs).
Qed.

Lemma strip_no_slash (s : string) :
  ends_with_slash s = false -> strip_trailing_slash s = s.
Proof.
  induction s as [|c s IH]; simpl; [reflexivity|].
  destruct s as [|d s'].
  - simpl. intros ->. reflexivity.
  - intros H. rewrite andb_false_r. now rewrite (IH H).
Qed.

End StrFacts.

(** ** The form encoding round-trips *)

Module FormFacts.
Import Str Form StrFacts.

Ltac by_bytes c :=
  destruct c as [[] [] [] [] [] [] [] []]; vm_compute; reflexivity.

Lemma decode_encode_byte (c : ascii) (r : string) :
  decode (encode_byte c ++ r) = String c (decode r).
Proof.
  unfold decode.
  destruct c as [[] [] [] [] [] [] [] []]; reflexivity.
Qed.

Lemma decode_encode (s : string) : decode (encode s) = s.
Proof.
  induction s as [|c s IH]; [reflexivity|].
  simpl encode. now rewrite decode_encode_byte, IH.
Qed.

Lemma encode_byte_chars (c : ascii) : all form_char (encode_byte c) = true.
Proof. by_bytes c. Qed.

Lemma encode_chars (s : string) : all form_char (encode s) = true.
Proof.
  induction s as [|c s IH]; [reflexivity|].
  simpl encode. now rewrite all_append, encode_byte_chars, IH.
Qed.

Lemma form_char_other (d c : ascii) :
  form_char d = false -> form_char c = true -> negb (Ascii.eqb c d) = true.
Proof.
  intros Hd Hc. apply negb_true_iff.
  destruct (Ascii.eqb_spec c d) as [->|]; [congruence | reflexivity].
Qed.

Lemma encode_without (d : ascii) (s : string) :
  form_char d = false ->
  all (fun c => negb (Ascii.eqb c d)) (encode s) = true.
Proof.
  intros Hd. apply all_impl with (p := form_char).
  - intros c. apply form_char_other, Hd.
  - apply encode_chars.
Qed.

Lemma pair_without (d : ascii) (p : string * string) :
  form_char d = false -> Ascii.eqb "=" d = false ->
  all (fun c => negb (Ascii.eqb c d)) (serialize_pair p) = true.
Proof.
  intros Hd He. unfold serialize_pair.
  rewrite all_append. cbn [append all]. rewrite He.
  now rewrite !encode_without.
Qed.

Lemma serialize_without (d : ascii) (l : list (string * string)) :
  form_char d = false -> Ascii.eqb "=" d = false ->
  Ascii.eqb "&" d = false ->
  all (fun c => negb (Ascii.eqb c d)) (serialize l) = true.
Proof.
  intros Hd He Ha. induction l as [|p r IH]; [reflexivity|].
  destruct r as [|q r].
  - simpl. now apply pair_without.
  - change (serialize (p :: q :: r))
      with (serialize_pair p ++ "&" ++ serialize (q :: r)).
    rewrite all_append, pair_without by assumption.
    cbn [append all]. rewrite Ha. exact IH.
Qed.

Lemma parse_pair_serialize (p : string * string) :
  parse_pair (serialize_pair p) = p.
Proof.
  destruct p as [n v]. unfold parse_pair, serialize_pair. simpl fst. simpl snd.
  change (encode n ++ "=" ++ encode v)
    with (encode n ++ String "=" (encode v)).
  rewrite take_until_app, drop_until_app;
    try reflexivity; try (apply (encode_without "="); reflexivity).
  now rewrite !decode_encode.
Qed.

Lemma serialize_pair_nonempty (p : string * string) :
  is_empty (serialize_pair p) = false.
Proof.
  unfold serialize_pair. destruct (encode (fst p)); reflexivity.
Qed.

Lemma serialize_nonempty (p : string * string) (r : list (string * string)) :
  is_empty (serialize (p :: r)) = false.
Proof.
  destruct r as [|q r].
  - apply serialize_pair_nonempty.
  - change (serialize (p :: q :: r))
      with (serialize_pair p ++ "&" ++ serialize (q :: r)).
    unfold serialize_pair. destruct (encode (fst p)); reflexivity.
Qed.

(** Parsing what the serializer wrote gives the pairs back. *)
Lemma parse_serialize (l : list (string * string)) :
  parse (serialize l) = l.
Proof.
  induction l as [|p r IH]; [reflexivity|].
  destruct r as [|q r].
  - unfold parse. simpl serialize.
    rewrite split_on_all by (apply (pair_without "&"); reflexivity).
    cbn [filter]. rewrite serialize_pair_nonempty. cbn [negb map].
    now rewrite parse_pair_serialize.
  - change (serialize (p :: q :: r))
      with (serialize_pair p ++ String "&" (serialize (q :: r))).
    unfold parse in *.
    rewrite split_on_app by (apply (pair_without "&"); reflexivity).
    cbn [filter]. rewrite serialize_pair_nonempty. cbn [negb map].
    now rewrite parse_pair_serialize, IH.
Qed.

(** The sequences between the [&] are the serialized pairs. *)
Lemma split_serialize (p : string * string) (r : list (string * string)) :
  split_on "&" (serialize (p :: r)) = map serialize_pair (p :: r).
Proof.
  revert p. induction r as [|q r IH]; intros p.
  - simpl serialize.
    now rewrite split_on_all by (apply (pair_without "&"); reflexivity).
  - change (serialize (p :: q :: r))
      with (serialize_pair p ++ String "&" (serialize (q :: r))).
    rewrite split_on_app by (apply (pair_without "&"); reflexivity).
    now rewrite IH.
Qed.

End FormFacts.

(** ** URLSearchParams *)

Module ParamsFacts.
Import URLSearchParams.

Lemma named_self (k v : string) : named k (k, v) = true.
Proof. apply String.eqb_refl. Qed.

Lemma get_set (k v : string) (l : t) : get k (set k v l) = Text v.
Proof.
  induction l as [|p r IH]; simpl.
  - now rewrite named_self.
  - destruct (named k p) eqn:E; simpl.
    + unfold named in *. simpl. now rewrite E.
    + now rewrite E.
Qed.

Lemma get_delete (k : string) (l : t) : get k (delete k l) = Null.
Proof.
  induction l as [|p r IH]; simpl; [reflexivity|].
  destruct (named k p) eqn:E; simpl; [exact IH | now rewrite E].
Qed.

Lemma occurrences_delete (k : string) (l : t) :
  occurrences k (delete k l) = 0.
Proof.
  unfold occurrences. induction l as [|p r IH]; simpl; [reflexivity|].
  destruct (named k p) eqn:E; simpl; [exact IH | now rewrite E].
Qed.

Lemma occurrences_set (k v : string) (l : t) :
  occurrences k (set k v l) = 1.
Proof.
  induction l as [|p r IH]; unfold occurrences in *; simpl.
  - now rewrite named_self.
  - destruct (named k p) eqn:E; simpl.
    + unfold named in *. simpl. rewrite E. simpl.
      f_equal. apply occurrences_delete.
    + now rewrite E.
Qed.

Lemma delete_idem (k : string) (l : t) :
  delete k (delete k l) = delete k l.
Proof.
  induction l as [|p r IH]; simpl; [reflexivity|].
  destruct (named k p) eqn:E; simpl; [exact IH | now rewrite E, IH].
Qed.

(** [set] leaves the pairs with another name as they are. *)
Lemma delete_set (k v : string) (l : t) :
  delete k (set k v l) = delete k l.
Proof.
  induction l as [|p r IH]; simpl.
  - now rewrite named_self.
  - destruct (named k p) eqn:E; simpl.
    + unfold named in *. simpl. rewrite E. simpl. apply delete_idem.
    + now rewrite E, IH.
Qed.

Lemma has_get (k : string) (l : t) :
  has k l = negb (is_null (get k l)).
Proof.
  induction l as [|p r IH]; simpl; [reflexivity|].
  destruct (named k p); simpl; [reflexivity | exact IH].
Qed.

Lemma delete_absent (k : string) (l : t) :
  occurrences k l = 0 -> delete k l = l.
Proof.
  unfold occurrences. induction l as [|p r IH]; simpl; [reflexivity|].
  destruct (named k p) eqn:E; simpl; [discriminate|].
  intros H. now rewrite IH.
Qed.

Lemma get_absent (k : string) (l : t) :
  get k l = Null -> occurrences k l = 0.
Proof.
  unfold occurrences. induction l as [|p r IH]; simpl; [reflexivity|].
  destruct (named k p) eqn:E; simpl; [discriminate | exact IH].
Qed.

(** Writing back the value a single occurrence has changes nothing. *)
Lemma set_same (k v : string) (l : t) :
  get k l = Text v -> occurrences k l <= 1 -> set k v l = l.
Proof.
  induction l as [|p r IH]; simpl; [discriminate|].
  unfold occurrences. simpl.
  destruct (named k p) eqn:E; simpl.
  - intros Hv Hn. injection Hv as <-.
    rewrite delete_absent by (unfold occurrences; lia).
    now destruct p.
  - intros Hv Hn. now rewrite (IH Hv Hn).
Qed.

(** [get] sees the first pair with the name, whatever follows it. *)
Lemma get_first (k v : string) (l1 l2 : t) :
  has k l1 = false -> get k (l1 ++ (k, v) :: l2)%list = Text v.
Proof.
  induction l1 as [|p r IH]; simpl.
  - intros _. now rewrite named_self.
  - destruct (named k p); simpl; [discriminate | exact IH].
Qed.

(** [get] answers a string or [null]. *)
Lemma get_defined (k : string) (l : t) : get k l <> Undefined.
Proof.
  induction l as [|p r IH]; simpl; [discriminate|].
  destruct (named k p); [discriminate | exact IH].
Qed.

(** Writing back what [get] found keeps what [get] finds. *)
Lemma get_reread (k : string) (l : t) :
  get k match get k l with
        | Text s => set k s l
        | _ => delete k l
        end = get k l.
Proof.
  pose proof (get_defined k l) as H.
  destruct (get k l) as [| |s]; [congruence | apply get_delete | apply get_set].
Qed.

Lemma reread_same (k : string) (l : t) :
  occurrences k l <= 1 ->
  match get k l with
  | Text s => set k s l
  | _ => delete k l
  end = l.
Proof.
  intros Hone. pose proof (get_defined k l) as H.
  destruct (get k l) as [| |s] eqn:E; [congruence | |].
  - apply delete_absent, get_absent, E.
  - now apply set_same.
Qed.

Lemma set_cons (k v : string) (l : t) :
  exists p r, set k v l = p :: r.
Proof. destruct l as [|q l]; simpl; [|destruct (named k q)]; eauto. Qed.

Lemma In_set (k v : string) (l : t) : In (k, v) (set k v l).
Proof.
  induction l as [|p r IH]; simpl; [now left|].
  destruct (named k p) eqn:E.
  - left. unfold named in E. apply String.eqb_eq in E. now rewrite E.
  - right. exact IH.
Qed.

(** [set] on a list whose first pair named [k] is known: that pair takes
    the value where it stands and the later pairs named [k] go. *)
Lemma set_first (k v w : string) (l1 l2 : t) :
  has k l1 = false ->
  set k w (l1 ++ (k, v) :: l2)%list = (l1 ++ (k, w) :: delete k l2)%list.
Proof.
  induction l1 as [|p r IH]; simpl.
  - intros _. now rewrite named_self.
  - destruct (named k p); simpl; [discriminate|].
    intros H. now rewrite (IH H).
Qed.

Lemma occurrences_reread (k : string) (l : t) :
  occurrences k match get k l with
                | Text s => set k s l
                | _ => delete k l
                end = if has k l then 1 else 0.
Proof.
  rewrite has_get. pose proof (get_defined k l) as H.
  destruct (get k l) as [| |s]; cbn [is_null negb];
    [congruence | apply occurrences_delete | apply occurrences_set].
Qed.

End ParamsFacts.

(** ** The target URL is read back as it was written *)

Module UrlFacts.
Import Str Form Url StrFacts FormFacts.

Lemma pathname_clean (u : string) : all clean (Url.pathname u) = true.
Proof. apply (all_take_until Url.is_delim). Qed.

Lemma strip_pathname_clean (u : string) :
  all clean (strip_trailing_slash (Url.pathname u)) = true.
Proof. apply all_strip, pathname_clean. Qed.

Section Written.
Variable path : string.
Variable params : URLSearchParams.t.
Hypothesis path_clean : all clean path = true.

(** A clean path followed by the serialized parameters. *)
Let written : string :=
  path ++ (if is_empty (URLSearchParams.toString params) then ""
           else "?" ++ URLSearchParams.toString params).

Lemma pathname_written : Url.pathname written = path.
Proof.
  unfold written, Url.pathname, URLSearchParams.toString.
  destruct params as [|p r].
  - simpl. rewrite append_nil_r. now apply take_until_all.
  - rewrite serialize_nonempty.
    change ("?" ++ serialize (p :: r)) with (String "?" (serialize (p :: r))).
    now apply take_until_app.
Qed.

Lemma search_written :
  URLSearchParams.create (Url.search written) = params.
Proof.
  unfold written, Url.search, URLSearchParams.toString.
  destruct params as [|p r].
  - simpl. rewrite append_nil_r.
    now rewrite (drop_until_all Url.is_delim).
  - rewrite serialize_nonempty.
    change ("?" ++ serialize (p :: r)) with (String "?" (serialize (p :: r))).
    rewrite (drop_until_app Url.is_delim) by (assumption || reflexivity).
    rewrite take_until_all by (apply (serialize_without "#"); reflexivity).
    rewrite serialize_nonempty.
    unfold URLSearchParams.create. apply parse_serialize.
Qed.

Lemma search_written_text (p : string * string) (r : URLSearchParams.t) :
  params = p :: r ->
  Url.search written = "?" ++ URLSearchParams.toString params.
Proof.
  intros E. unfold written, Url.search, URLSearchParams.toString.
  rewrite E, serialize_nonempty.
  change ("?" ++ serialize (p :: r)) with (String "?" (serialize (p :: r))).
  rewrite (drop_until_app Url.is_delim) by (assumption || reflexivity).
  rewrite take_until_all by (apply (serialize_without "#"); reflexivity).
  now rewrite serialize_nonempty.
Qed.
End Written.

End UrlFacts.

(** ** resolve *)

Module ResolveFacts.
Import Str StrFacts UrlFacts.

Lemma resolve_eq (u k : string) (v : Value) (o : Options) :
  resolve u k v o =
  (target_of (Url.pathname u) (fst (update k v o (params_of u))),
   snd (update k v o (params_of u))).
Proof.
  unfold resolve, params_of.
  now destruct (update k v o (URLSearchParams.create (Url.search u))).
Qed.

Lemma params_target (u : string) (l : URLSearchParams.t) :
  params_of (target_of (Url.pathname u) l) = l.
Proof. apply search_written, strip_pathname_clean. Qed.

Lemma pathname_target (u : string) (l : URLSearchParams.t) :
  Url.pathname (target_of (Url.pathname u) l) =
  strip_trailing_slash (Url.pathname u).
Proof. apply pathname_written, strip_pathname_clean. Qed.

(** The parameters of the resulting URL are the updated parameters. *)
Lemma params_resolve (u k : string) (v : Value) (o : Options) :
  params_of (resultingUrl (resolve u k v o)) =
  fst (update k v o (params_of u)).
Proof. rewrite resolve_eq. apply params_target. Qed.

Lemma pathname_resolve (u k : string) (v : Value) (o : Options) :
  Url.pathname (resultingUrl (resolve u k v o)) =
  strip_trailing_slash (Url.pathname u).
Proof. rewrite resolve_eq. apply pathname_target. Qed.

Lemma value_resolve (u k : string) (v : Value) (o : Options) :
  resolvedValue (resolve u k v o) = snd (update k v o (params_of u)).
Proof. now rewrite resolve_eq. Qed.

Lemma update_text (k s : string) (o : Options) (l : URLSearchParams.t) :
  update k (Text s) o l = (URLSearchParams.set k s l, Text s).
Proof. reflexivity. Qed.

Lemma update_null (k : string) (o : Options) (l : URLSearchParams.t) :
  update k Null o l =
  if nullDeletes_of o then (URLSearchParams.delete k l, Null)
  else (URLSearchParams.set k "null" l, Null).
Proof. reflexivity. Qed.

Lemma update_read (k : string) (o : Options) (l : URLSearchParams.t) :
  update k Undefined o l =
  match URLSearchParams.get k l with
  | Text s => (URLSearchParams.set k s l, Text s)
  | _ => if nullDeletes_of o then (URLSearchParams.delete k l, Null)
         else (URLSearchParams.set k "null" l, Null)
  end.
Proof.
  unfold update.
  pose proof (ParamsFacts.get_defined k l) as H.
  destruct (URLSearchParams.get k l); [congruence | reflexivity | reflexivity].
Qed.

(** A read under [nullDeletes]: the value found is written back. *)
Lemma update_read_default (k : string) (o : Options)
    (l : URLSearchParams.t) :
  nullDeletes_of o = true ->
  update k Undefined o l =
  (match URLSearchParams.get k l with
   | Text s => URLSearchParams.set k s l
   | _ => URLSearchParams.delete k l
   end, URLSearchParams.get k l).
Proof.
  intros Hn. rewrite update_read, Hn.
  pose proof (ParamsFacts.get_defined k l) as H.
  destruct (URLSearchParams.get k l); congruence.
Qed.

Lemma snd_update_read (k : string) (o : Options) (l : URLSearchParams.t) :
  snd (update k Undefined o l) = URLSearchParams.get k l.
Proof.
  rewrite update_read.
  pose proof (ParamsFacts.get_defined k l) as H.
  destruct (URLSearchParams.get k l); try destruct (nullDeletes_of o);
    cbn [snd]; congruence.
Qed.

Lemma handleParam_eq (k : string) (v : Value) (o : Options) (h : History) :
  handleParam k v o h =
  (commit (historyState_of o)
     (Some (resolvedValue (resolve (href h) k v o)))
     (resultingUrl (resolve (href h) k v o)) h,
   resolvedValue (resolve (href h) k v o)).
Proof.
  unfold handleParam. now destruct (resolve (href h) k v o).
Qed.

Lemma href_commit (m : HistoryState) (d : option Value) (url : string)
    (h : History) :
  href (commit m d url h) = navigate (href h) url.
Proof. now destruct m. Qed.

End ResolveFacts.

(** ** The document URL after a commit *)

Module NavigateFacts.
Import Str StrFacts FormFacts UrlFacts ResolveFacts.

Lemma kept_path_clean (u : string) :
  all Url.clean (kept_path (Url.pathname u)) = true.
Proof.
  unfold kept_path.
  destruct (is_empty (strip_trailing_slash (Url.pathname u)));
    [apply pathname_clean | apply strip_pathname_clean].
Qed.

Lemma toString_empty (l : URLSearchParams.t) :
  is_empty (URLSearchParams.toString l) = true -> l = [].
Proof.
  destruct l as [|p r]; [reflexivity|].
  unfold URLSearchParams.toString. now rewrite serialize_nonempty.
Qed.

(** The target is empty when nothing is left of the path nor of the
    parameters. *)
Lemma target_empty (path : string) (l : URLSearchParams.t) :
  is_empty (target_of path l) = true ->
  strip_trailing_slash path = "" /\ l = [].
Proof.
  unfold target_of. destruct (strip_trailing_slash path) as [|c r];
    [|discriminate].
  destruct (is_empty (URLSearchParams.toString l)) eqn:E; [|discriminate].
  intros _. split; [reflexivity | now apply toString_empty].
Qed.

Lemma target_of_cons (path : string) (p : string * string)
    (r : URLSearchParams.t) :
  is_empty (target_of path (p :: r)) = false.
Proof.
  unfold target_of, URLSearchParams.toString. rewrite serialize_nonempty.
  destruct (strip_trailing_slash path); reflexivity.
Qed.

(** A target that is not empty takes the document to the kept path
    followed by the serialized parameters. *)
Lemma navigate_target (u : string) (l : URLSearchParams.t) :
  is_empty (target_of (Url.pathname u) l) = false ->
  navigate u (target_of (Url.pathname u) l) =
  url_of (kept_path (Url.pathname u)) l.
Proof.
  unfold target_of, url_of, kept_path.
  pose proof (strip_pathname_clean u) as Hc.
  destruct (strip_trailing_slash (Url.pathname u)) as [|c r].
  - cbn [is_empty append].
    destruct (is_empty (URLSearchParams.toString l)); [discriminate|].
    intros _. reflexivity.
  - intros _. cbn [is_empty append navigate].
    cbn [all] in Hc. apply andb_true_iff in Hc as [Hc _].
    unfold Url.clean, Url.is_delim in Hc.
    destruct (Ascii.eqb c "?"); [discriminate | reflexivity].
Qed.

Lemma params_url_of (u : string) (l : URLSearchParams.t) :
  params_of (url_of (kept_path (Url.pathname u)) l) = l.
Proof. apply search_written, kept_path_clean. Qed.

Lemma pathname_url_of (u : string) (l : URLSearchParams.t) :
  Url.pathname (url_of (kept_path (Url.pathname u)) l)
  = kept_path (Url.pathname u).
Proof. apply pathname_written, kept_path_clean. Qed.

(** The document URL after [handleParam]. *)
Lemma href_after (k : string) (v : Value) (o : Options) (h : History) :
  href (fst (handleParam k v o h)) =
  if is_empty (resultingUrl (resolve (href h) k v o)) then href h
  else url_of (kept_path (Url.pathname (href h)))
         (fst (update k v o (params_at h))).
Proof.
  rewrite handleParam_eq. cbn [fst]. rewrite href_commit, resolve_eq.
  cbn [resultingUrl fst]. fold (params_at h).
  destruct (is_empty (target_of _ _)) eqn:E.
  - destruct (target_of _ _); [reflexivity | discriminate].
  - now apply navigate_target.
Qed.

(** Its parameters: those of the update, unless the target was empty. *)
Lemma params_after (k : string) (v : Value) (o : Options) (h : History) :
  params_at (fst (handleParam k v o h)) =
  if is_empty (resultingUrl (resolve (href h) k v o)) then params_at h
  else fst (update k v o (params_at h)).
Proof.
  unfold params_at at 1. rewrite href_after.
  destruct (is_empty _); [reflexivity | apply params_url_of].
Qed.

(** A request that leaves a parameter has a target that is not empty. *)
Lemma target_of_written (u k : string) (v : Value) (o : Options) :
  fst (update k v o (params_of u)) <> [] ->
  is_empty (resultingUrl (resolve u k v o)) = false.
Proof.
  intros H. rewrite resolve_eq. cbn [resultingUrl fst].
  destruct (fst (update k v o (params_of u))) as [|p r];
    [congruence | apply target_of_cons].
Qed.

Lemma target_of_text (u k s : string) (o : Options) :
  is_empty (resultingUrl (resolve u k (Text s) o)) = false.
Proof.
  apply target_of_written. rewrite update_text. cbn [fst].
  destruct (ParamsFacts.set_cons k s (params_of u)) as (p & r & E).
  rewrite E. discriminate.
Qed.

Lemma search_url_of (u : string) (l : URLSearchParams.t) :
  Url.search (url_of (kept_path (Url.pathname u)) l) =
  if is_empty (URLSearchParams.toString l) then ""
  else "?" ++ URLSearchParams.toString l.
Proof.
  pose proof (kept_path_clean u) as Hc. destruct l as [|p r].
  - unfold url_of, Url.search. cbn. rewrite append_nil_r.
    now rewrite (drop_until_all Url.is_delim).
  - unfold URLSearchParams.toString at 1. rewrite serialize_nonempty.
    apply (search_written_text _ _ Hc p r). reflexivity.
Qed.

Lemma kept_path_idem (path : string) :
  ends_with_slash (strip_trailing_slash path) = false ->
  kept_path (kept_path path) = kept_path path.
Proof.
  intros H. unfold kept_path.
  destruct (is_empty (strip_trailing_slash path)) eqn:E.
  - now rewrite E.
  - rewrite (strip_no_slash _ H). now rewrite E.
Qed.

End NavigateFacts.

(** ** The scenarios of the specification, run *)

Section Scenarios.

Let tag_set : Page :=
  setParam "tag" no_options (Text "science") no_options
    (fst (useQueryParam "tag" Undefined no_options (page_at "/blog"))).

Example bind_at_blog :
  snd (useQueryParam "tag" Undefined no_options (page_at "/blog")) = Null.
Proof. reflexivity. Qed.

Example set_science :
  href (history tag_set) = "/blog?tag=science" /\
  cell tag_set = Some (Text "science").
Proof. split; reflexivity. Qed.

Example set_null_after :
  let p := setParam "tag" no_options Null no_options tag_set in
  href (history p) = "/blog" /\ cell p = Some Null.
Proof. split; reflexivity. Qed.

Example push_css :
  let start := page_at "/blog?tag=ml&sort=new" in
  let bound := useQueryParam "tag" Undefined no_options start in
  let p := setParam "tag" no_options (Text "css")
             (mkOptions (Some Push) None) (fst bound) in
  snd bound = Text "ml" /\
  href (history p) = "/blog?tag=css&sort=new" /\
  entries (history p) = 2.
Proof. repeat split. Qed.

Example encoded_value :
  resolve "/blog?q=a%20b#top" "tag" (Text "c&d=e f") no_options
  = ("/blog?q=a+b&tag=c%26d%3De+f", Text "c&d=e f").
Proof. reflexivity. Qed.

End Scenarios.

(** * The properties of the specification *)

Section Claims.
Import Str StrFacts UrlFacts ParamsFacts ResolveFacts NavigateFacts.

Lemma setParam_eq (k : string) (o : Options) (v : Value) (ov : Options)
    (p : Page) :
  setParam k o v ov p =
  mkPage (fst (handleParam k v (spread o ov) (history p)))
         (Some (snd (handleParam k v (spread o ov) (history p)))).
Proof.
  unfold setParam. now destruct (handleParam k v (spread o ov) (history p)).
Qed.

(** C1, on the code.  The claim fails at the site root: with [tag] the only
    parameter of [/?tag=js], the setter called with [null] stores [null] as
    the state, but the target it builds is the empty string, which leaves
    the document URL as it is: the URL still carries [tag=js]. *)
Theorem setParam_null_at_root_keeps_key :
  let p' := setParam "tag" no_options Null no_options (page_at "/?tag=js") in
  resultingUrl (resolve "/?tag=js" "tag" Null no_options) = "" /\
  cell p' = Some Null /\
  href (history p') = "/?tag=js" /\
  URLSearchParams.get "tag" (params_at (history p')) = Text "js".
Proof. intros p'. repeat split. Qed.

Lemma useQueryParam_eq (k : string) (v : Value) (o : Options) (p : Page) :
  useQueryParam k v o p =
  (mkPage (fst (handleParam k v o (history p)))
     (Some match cell p with
           | Some x => x
           | None => snd (handleParam k v o (history p))
           end),
   match cell p with
   | Some x => x
   | None => snd (handleParam k v o (history p))
   end).
Proof.
  unfold useQueryParam. now destruct (handleParam k v o (history p)).
Qed.




(** C3. Round trip: a string written for a key is the value a read of that
    key gets from the resulting URL, whatever the options of either call
    (in particular with [{}] for both). *)
Theorem write_then_read (u k v : string) (o1 o2 : Options) :
  resolvedValue
    (resolve (resultingUrl (resolve u k (Text v) o1)) k Undefined o2)
  = Text v.
Proof.
  rewrite value_resolve, params_resolve, update_text. cbn [fst].
  rewrite update_read, get_set. reflexivity.
Qed.

(** C4, as the claim states it, fails: with [tag] twice in the query a read
    returns the value of the first occurrence, not of the last. *)
Lemma read_duplicate_not_last :
  let u := "/blog?tag=a&tag=b" in
  last_value "tag" (params_of u) = Text "b" /\
  resolvedValue (resolve u "tag" Undefined no_options)
    <> last_value "tag" (params_of u).
Proof. split; [reflexivity|]. intros H; vm_compute in H; discriminate H. Qed.

(** C4, amended.  When the query holds the key more than once the first
    occurrence wins: a read returns the value of the first pair with that
    name, whatever pairs follow it. *)
Theorem read_returns_first
    (u k v : string) (o : Options) (l1 l2 : URLSearchParams.t) :
  params_of u = (l1 ++ (k, v) :: l2)%list ->
  URLSearchParams.has k l1 = false ->
  resolvedValue (resolve u k Undefined o) = Text v.
Proof.
  intros Hu Hl. rewrite value_resolve, update_read, Hu.
  now rewrite (get_first k v l1 l2 Hl).
Qed.

Lemma read_returns_first_witness :
  params_of "/blog?tag=a&tag=b" = ([] ++ ("tag", "a") :: [("tag", "b")])%list /\
  URLSearchParams.has "tag" [] = false /\
  resolvedValue (resolve "/blog?tag=a&tag=b" "tag" Undefined no_options)
  = Text "a".
Proof.
  split; [reflexivity|]. split; [reflexivity|].
  apply (read_returns_first "/blog?tag=a&tag=b" "tag" "a" no_options
           [] [("tag", "b")]); reflexivity.
Defined.

Lemma others_update (k : string) (v : Value) (o : Options)
    (l : URLSearchParams.t) :
  URLSearchParams.others k (fst (update k v o l)) = URLSearchParams.others k l.
Proof.
  unfold URLSearchParams.others.
  destruct v as [| |s].
  - rewrite update_read.
    destruct (URLSearchParams.get k l); try destruct (nullDeletes_of o);
      cbn [fst]; auto using delete_idem, delete_set.
  - rewrite update_null. destruct (nullDeletes_of o);
      cbn [fst]; auto using delete_idem, delete_set.
  - rewrite update_text. cbn [fst]. apply delete_set.
Qed.

(** C5, as the claim states it, fails: with [nullDeletes: false] a [null]
    request at [/blog] writes [tag=null] into the query. *)
Lemma null_kept_is_written :
  let o := mkOptions None (Some false) in
  let r := resolve "/blog" "tag" Null o in
  resultingUrl r <> "/blog" /\
  URLSearchParams.get "tag" (params_of (resultingUrl r)) = Text "null".
Proof. split; [intros H; vm_compute in H; discriminate H | reflexivity]. Qed.

(** C5, amended.  When [nullDeletes] is false and the requested value is
    [null], the key is set to the string [null] as a request of that string
    would set it: it is there exactly once with that value and the other
    pairs are kept in value and order; the value returned is [null]. *)
Theorem null_without_nullDeletes (u k : string) (o : Options) :
  nullDeletes_of o = false ->
  let r := resolve u k Null o in
  resolvedValue r = Null /\
  resultingUrl r = resultingUrl (resolve u k (Text "null") o) /\
  URLSearchParams.get k (params_of (resultingUrl r)) = Text "null" /\
  URLSearchParams.occurrences k (params_of (resultingUrl r)) = 1 /\
  URLSearchParams.others k (params_of (resultingUrl r))
    = URLSearchParams.others k (params_of u).
Proof.
  intros Hn r. subst r.
  rewrite value_resolve, !params_resolve, others_update, !resolve_eq.
  rewrite !update_null, update_text, Hn. cbn [fst snd resultingUrl].
  repeat split; [apply get_set | apply occurrences_set].
Qed.

Lemma null_without_nullDeletes_witness :
  nullDeletes_of (mkOptions None (Some false)) = false /\
  resultingUrl (resolve "/blog?tag=js" "tag" Null (mkOptions None (Some false)))
  = resultingUrl
      (resolve "/blog?tag=js" "tag" (Text "null")
         (mkOptions None (Some false))).
Proof.
  split; [reflexivity|].
  apply (null_without_nullDeletes "/blog?tag=js" "tag"
           (mkOptions None (Some false))).
  reflexivity.
Defined.

(** C6, as the claim states it, fails: a trailing slash of the path is
    removed. *)
Lemma path_loses_trailing_slash :
  let u := "/blog/?tag=js" in
  Url.pathname (resultingUrl (resolve u "page" (Text "3") no_options))
    <> Url.pathname u.
Proof. intros u H; vm_compute in H; discriminate H. Qed.

(** C6, amended.  The path of the resulting URL is the path of the URL
    without one trailing slash, if it had one; every pair with another key
    is kept, in value and relative order; and
    [resolve("/blog?tag=js&page=2", "page", "3", {})] gives
    [/blog?tag=js&page=3]. *)
Theorem resolve_keeps_the_rest (u k : string) (v : Value) (o : Options) :
  let r := resolve u k v o in
  Url.pathname (resultingUrl r) = strip_trailing_slash (Url.pathname u) /\
  URLSearchParams.others k (params_of (resultingUrl r))
    = URLSearchParams.others k (params_of u) /\
  resultingUrl (resolve "/blog?tag=js&page=2" "page" (Text "3") no_options)
    = "/blog?tag=js&page=3".
Proof.
  intros r. subst r. split; [apply pathname_resolve|].
  split; [|reflexivity].
  rewrite params_resolve. apply others_update.
Qed.

(** C7, as the claim states it, fails: a read of an absent key at [/blog/]
    gives another URL, and a read of a key that occurs twice drops the
    second occurrence from the parameters. *)
Lemma read_changes_url :
  let r := resolve "/blog/" "tag" Undefined no_options in
  let u := "/blog?tag=a&tag=b" in
  URLSearchParams.get "tag" (params_of "/blog/") = Null /\
  resultingUrl r <> "/blog/" /\
  params_of (resultingUrl (resolve u "tag" Undefined no_options))
    <> params_of u.
Proof.
  split; [reflexivity|].
  split; intros H; vm_compute in H; discriminate H.
Qed.

(** C7, amended.  A read returns the value of the first occurrence of the
    key, or [null] when the key is absent.  With [nullDeletes] true (the
    default) the key reads the same in the resulting URL, the other pairs
    are kept in value and order, the first occurrence of the key stays
    where it is and the later ones are dropped, so that the parameters are
    those of the URL when the key occurs at most once; when moreover the
    key is absent, the path has no trailing slash, the parameters are valid
    UTF-8 and the URL is its path followed by its serialized parameters,
    the resulting URL is the URL.
    [resolve("/blog", "tag", undefined, {})] gives [null]. *)
Theorem read_request (u k : string) (o : Options) :
  let l := params_of u in
  let r := resolve u k Undefined o in
  resolvedValue r = URLSearchParams.get k l /\
  (nullDeletes_of o = true ->
     URLSearchParams.get k (params_of (resultingUrl r))
       = URLSearchParams.get k l /\
     URLSearchParams.others k (params_of (resultingUrl r))
       = URLSearchParams.others k l /\
     URLSearchParams.occurrences k (params_of (resultingUrl r))
       = (if URLSearchParams.has k l then 1 else 0) /\
     (forall (l1 l2 : URLSearchParams.t) (v : string),
        l = (l1 ++ (k, v) :: l2)%list ->
        URLSearchParams.has k l1 = false ->
        params_of (resultingUrl r)
        = (l1 ++ (k, v) :: URLSearchParams.delete k l2)%list) /\
     (URLSearchParams.occurrences k l <= 1 ->
        params_of (resultingUrl r) = l) /\
     (URLSearchParams.get k l = Null ->
      ends_with_slash (Url.pathname u) = false ->
      Utf8.all_valid l = true ->
      u = url_of (Url.pathname u) l ->
      resultingUrl r = u)) /\
  resolvedValue (resolve "/blog" "tag" Undefined no_options) = Null.
Proof.
  intros l r. subst r. split; [|split; [|reflexivity]].
  - rewrite value_resolve. apply snd_update_read.
  - intros Hn. rewrite params_resolve, others_update. fold l.
    rewrite (update_read_default k o l Hn). cbn [fst].
    split; [apply get_reread|]. split; [reflexivity|].
    split; [apply occurrences_reread|].
    split; [|split].
    + intros l1 l2 v Hl H1. rewrite Hl, (get_first k v l1 l2 H1).
      apply set_first, H1.
    + apply reread_same.
    + intros Habs Hslash _ Hu. rewrite resolve_eq. fold l.
      rewrite (update_read_default k o l Hn). cbn [fst resultingUrl].
      rewrite reread_same by (rewrite (get_absent _ _ Habs); lia).
      unfold target_of. rewrite (strip_no_slash _ Hslash). symmetry. exact Hu.
Qed.

Lemma read_request_witness :
  nullDeletes_of no_options = true /\
  URLSearchParams.occurrences "sort" (params_of "/blog?tag=js") <= 1 /\
  URLSearchParams.get "sort" (params_of "/blog?tag=js") = Null /\
  ends_with_slash (Url.pathname "/blog?tag=js") = false /\
  Utf8.all_valid (params_of "/blog?tag=js") = true /\
  "/blog?tag=js"
    = url_of (Url.pathname "/blog?tag=js") (params_of "/blog?tag=js") /\
  resultingUrl (resolve "/blog?tag=js" "sort" Undefined no_options)
    = "/blog?tag=js" /\
  params_of
    (resultingUrl (resolve "/blog?tag=a&x=1&tag=b" "tag" Undefined no_options))
    = [("tag", "a"); ("x", "1")].
Proof.
  split; [reflexivity|]. split; [vm_compute; lia|].
  split; [reflexivity|]. split; [reflexivity|]. split; [reflexivity|].
  split; [reflexivity|]. split.
  - destruct (read_request "/blog?tag=js" "sort" no_options) as [_ [H _]].
    destruct (H eq_refl) as (_ & _ & _ & _ & _ & Hfix).
    apply Hfix; reflexivity.
  - destruct (read_request "/blog?tag=a&x=1&tag=b" "tag" no_options)
      as [_ [H _]].
    destruct (H eq_refl) as (_ & _ & _ & Hdup & _).
    apply (Hdup [] [("x", "1"); ("tag", "b")] "a"); reflexivity.
Defined.

(** C8. A call of the setter commits in the mode of the merged options
    (the override's [historyState], else the hook's, else [replace]).  Under
    [push] one entry is created: the entry the page was at, with the URL
    from before the change, becomes the first one back and the entries
    forward of it are dropped.  Under [replace] the current entry is
    overwritten and the entries and their number stay.  Either way the
    current entry then carries the state object [{ path: value }] and the
    URL the resolved target gives at the document URL. *)
Theorem setParam_history_mode
    (key : string) (options override : Options) (newValue : Value)
    (past future : list Entry) (here : Entry) (c : option Value) :
  let h := mkHistory past here future in
  let merged := spread options override in
  let h' := history (setParam key options newValue override (mkPage h c)) in
  let r := resolve (entry_url here) key newValue merged in
  historyState_of merged =
    match historyState override, historyState options with
    | Some m, _ => m
    | None, Some m => m
    | None, None => Replace
    end /\
  current h' =
    mkEntry (Some (resolvedValue r))
      (navigate (entry_url here) (resultingUrl r)) /\
  match historyState_of merged with
  | Push => back h' = here :: past /\ forward h' = [] /\
            entries h' + List.length future = S (entries h)
  | Replace => back h' = past /\ forward h' = future /\
               entries h' = entries h
  end.
Proof.
  intros h merged h' r. subst h' r h merged. rewrite setParam_eq.
  cbn [history]. rewrite handleParam_eq. cbn [fst].
  split; [|split].
  - unfold historyState_of, spread. cbn [historyState].
    destruct (historyState override); reflexivity.
  - destruct (historyState_of (spread options override)); reflexivity.
  - destruct (historyState_of (spread options override));
      unfold entries; cbn; repeat split; lia.
Qed.

(** C9, as the claim states it, fails: at a path that ends in two slashes
    each deletion removes one of them. *)
Lemma deletion_strips_again :
  let o := mkOptions None (Some true) in
  let once := resultingUrl (resolve "/blog//" "tag" Null o) in
  resultingUrl (resolve once "tag" Null o) <> once.
Proof. intros o once H; vm_compute in H; discriminate H. Qed.

(** C9, amended.  Deletion is idempotent at every URL whose path does not
    end in two slashes: deleting the key from the URL a deletion gave
    returns that URL. *)
Theorem deletion_idempotent (u k : string) (o : Options) :
  nullDeletes_of o = true ->
  ends_with_slash (strip_trailing_slash (Url.pathname u)) = false ->
  resultingUrl (resolve (resultingUrl (resolve u k Null o)) k Null o)
  = resultingUrl (resolve u k Null o).
Proof.
  intros Hn Hs.
  rewrite (resolve_eq (resultingUrl (resolve u k Null o))).
  cbn [resultingUrl fst].
  rewrite params_resolve, pathname_resolve, !update_null, Hn. cbn [fst].
  rewrite delete_idem, resolve_eq, update_null, Hn. cbn [fst].
  unfold target_of. now rewrite (strip_no_slash _ Hs).
Qed.

Lemma deletion_idempotent_witness :
  let o := mkOptions None (Some true) in
  let u := "/blog/?tag=js&page=2" in
  nullDeletes_of o = true /\
  ends_with_slash (strip_trailing_slash (Url.pathname u)) = false /\
  resultingUrl (resolve (resultingUrl (resolve u "tag" Null o)) "tag" Null o)
  = resultingUrl (resolve u "tag" Null o).
Proof.
  intros o u. split; [reflexivity|]. split; [reflexivity|].
  apply (deletion_idempotent u "tag" o); reflexivity.
Defined.

(** C10. A request of the empty string keeps the key: the value returned
    is the empty string, the key reads as the empty string in the resulting
    URL, whose query holds the sequence [key=] (the key in its encoded
    form).  A key that was there is gone from the resulting URL only when
    the request was [null] and [nullDeletes] true. *)
Theorem empty_string_keeps_key (u k : string) (o : Options) :
  let r := resolve u k (Text "") o in
  let written := URLSearchParams.set k "" (params_of u) in
  resolvedValue r = Text "" /\
  URLSearchParams.get k (params_of (resultingUrl r)) = Text "" /\
  Url.search (resultingUrl r) = "?" ++ URLSearchParams.toString written /\
  In (Form.encode k ++ "=")
     (split_on "&" (URLSearchParams.toString written)) /\
  resultingUrl (resolve "/blog" "tag" (Text "") no_options) = "/blog?tag=" /\
  (forall v : Value,
     URLSearchParams.has k (params_of u) = true ->
     URLSearchParams.has k (params_of (resultingUrl (resolve u k v o)))
       = false ->
     v = Null /\ nullDeletes_of o = true).
Proof.
  intros r written. subst r.
  split; [now rewrite value_resolve|].
  split; [rewrite params_resolve, update_text; apply get_set|].
  destruct (set_cons k "" (params_of u)) as (p & t & E).
  split.
  { rewrite resolve_eq, update_text. cbn [fst resultingUrl].
    apply (search_written_text _ _ (strip_pathname_clean u) p t). exact E. }
  split.
  { unfold URLSearchParams.toString, written. rewrite E.
    rewrite FormFacts.split_serialize, <- E.
    change (Form.encode k ++ "=") with (Form.serialize_pair (k, "")).
    apply in_map, In_set. }
  split; [reflexivity|].
  intros v Hin Hout. rewrite params_resolve in Hout.
  rewrite has_get in Hin, Hout.
  destruct v as [| |s].
  - rewrite update_read in Hout.
    pose proof (get_defined k (params_of u)) as Hd.
    destruct (URLSearchParams.get k (params_of u));
      [congruence | discriminate Hin |].
    cbn [fst] in Hout. now rewrite get_set in Hout.
  - rewrite update_null in Hout. destruct (nullDeletes_of o); [easy|].
    cbn [fst] in Hout. now rewrite get_set in Hout.
  - rewrite update_text in Hout. cbn [fst] in Hout.
    now rewrite get_set in Hout.
Qed.

Lemma empty_string_keeps_key_witness :
  URLSearchParams.has "tag" (params_of "/blog?tag=js") = true /\
  URLSearchParams.has "tag"
    (params_of (resultingUrl (resolve "/blog?tag=js" "tag" Null no_options)))
    = false /\
  Null = Null /\ nullDeletes_of no_options = true.
Proof.
  split; [reflexivity|]. split; [reflexivity|].
  destruct (empty_string_keeps_key "/blog?tag=js" "tag" no_options)
    as (_ & _ & _ & _ & _ & H).
  apply (H Null); reflexivity.
Defined.

End Claims.

(** * Further properties of the code *)

(** ** Parameters: what a write leaves alone and what it replaces *)

Module WriteFacts.
Import Str Form StrFacts FormFacts UrlFacts ParamsFacts ResolveFacts.
Import URLSearchParams.

Lemma get_delete_other (k k' : string) (l : t) :
  k' <> k -> get k' (delete k l) = get k' l.
Proof.
  intros Hk. induction l as [|p r IH]; simpl; [reflexivity|].
  destruct (named k p) eqn:E; simpl.
  - destruct (named k' p) eqn:E'; [|exact IH].
    unfold named in *. apply String.eqb_eq in E, E'. congruence.
  - now rewrite IH.
Qed.

Lemma set_set (k v w : string) (l : t) : set k w (set k v l) = set k w l.
Proof.
  induction l as [|p r IH]; simpl.
  - now rewrite named_self.
  - destruct (named k p) eqn:E; simpl.
    + unfold named in *. simpl. rewrite E. simpl. now rewrite delete_idem.
    + now rewrite E, IH.
Qed.

(** The query of a target is the serialized parameters, after [?]. *)
Lemma search_target (u : string) (l : t) :
  Url.search (target_of (Url.pathname u) l) =
  if is_empty (toString l) then "" else "?" ++ toString l.
Proof.
  destruct l as [|p r].
  - unfold target_of, Url.search. simpl. rewrite append_nil_r.
    now rewrite (drop_until_all Url.is_delim)
      by apply strip_pathname_clean.
  - unfold toString at 1. rewrite serialize_nonempty.
    apply (search_written_text _ _ (strip_pathname_clean u) p r).
    reflexivity.
Qed.

Lemma search_resolve (u k : string) (v : Value) (o : Options) :
  Url.search (resultingUrl (resolve u k v o)) =
  let l := fst (update k v o (params_of u)) in
  if is_empty (toString l) then "" else "?" ++ toString l.
Proof. rewrite resolve_eq. apply search_target. Qed.

Lemma target_without_hash (u : string) (l : t) :
  all (fun c => negb (Url.is_hash c)) (target_of (Url.pathname u) l) = true.
Proof.
  unfold target_of. rewrite all_append. apply andb_true_iff. split.
  - apply all_impl with (p := Url.clean); [|apply strip_pathname_clean].
    intros c. unfold Url.clean, Url.is_delim, Url.is_hash.
    destruct (Ascii.eqb c "?"), (Ascii.eqb c "#"); simpl; congruence.
  - destruct (is_empty (toString l)); [reflexivity|].
    change ("?" ++ toString l) with (String "?" (toString l)).
    cbn [all]. apply andb_true_iff. split; [reflexivity|].
    apply (serialize_without "#"); reflexivity.
Qed.

End WriteFacts.

Section CodecExtras.
Import Str StrFacts UrlFacts ParamsFacts ResolveFacts WriteFacts.

(** X1. The URL [handleParam] builds never holds a [#]: whatever the
    request, a fragment of the current URL is not carried over. *)
Theorem target_drops_fragment (u k : string) (v : Value) (o : Options) :
  all (fun c => negb (Url.is_hash c)) (resultingUrl (resolve u k v o)) = true.
Proof. rewrite resolve_eq. apply target_without_hash. Qed.

(** X2. A request for one key never changes what another key reads as:
    for [k'] other than [k], [get k'] gives the same on the resulting URL
    as on the URL. *)
Theorem other_key_reads_the_same
    (u k k' : string) (v : Value) (o : Options) :
  k' <> k ->
  URLSearchParams.get k' (params_of (resultingUrl (resolve u k v o)))
  = URLSearchParams.get k' (params_of u).
Proof.
  intros Hk.
  rewrite <- (get_delete_other k k' (params_of (resultingUrl _)) Hk).
  rewrite <- (get_delete_other k k' (params_of u) Hk).
  f_equal. rewrite params_resolve.
  exact (others_update k v o (params_of u)).
Qed.

Lemma other_key_reads_the_same_witness :
  "sort" <> "tag" /\
  URLSearchParams.get "sort"
    (params_of
       (resultingUrl
          (resolve "/blog?tag=ml&sort=new" "tag" (Text "css") no_options)))
  = URLSearchParams.get "sort" (params_of "/blog?tag=ml&sort=new").
Proof.
  split; [discriminate|].
  apply (other_key_reads_the_same "/blog?tag=ml&sort=new" "tag" "sort"
           (Text "css") no_options).
  discriminate.
Defined.

(** X3. The last write wins: writing [v] and then [w] for a key leaves the
    query that writing [w] alone leaves (same pairs, same order, same
    text). *)
Theorem second_write_replaces_first (u k v w : string) (o1 o2 : Options) :
  let twice :=
    resultingUrl (resolve (resultingUrl (resolve u k (Text v) o1))
                    k (Text w) o2) in
  let once := resultingUrl (resolve u k (Text w) o2) in
  params_of twice = params_of once /\ Url.search twice = Url.search once.
Proof.
  intros twice once. subst twice once.
  rewrite !search_resolve, !params_resolve, !update_text. cbn [fst].
  now rewrite set_set.
Qed.



(** X5. With [nullDeletes] false, a read of a key the URL does not have
    returns [null] and writes the key with the string [null]: read again
    from the resulting URL, the key is that string. *)
Theorem read_absent_without_nullDeletes (u k : string) (o o' : Options) :
  nullDeletes_of o = false ->
  URLSearchParams.get k (params_of u) = Null ->
  let r := resolve u k Undefined o in
  resolvedValue r = Null /\
  URLSearchParams.get k (params_of (resultingUrl r)) = Text "null" /\
  resolvedValue (resolve (resultingUrl r) k Undefined o') = Text "null".
Proof.
  intros Hn Habs r. subst r.
  rewrite !value_resolve, !params_resolve, !update_read, Habs, Hn.
  cbn [fst snd]. rewrite get_set. auto.
Qed.

Lemma read_absent_without_nullDeletes_witness :
  nullDeletes_of (mkOptions None (Some false)) = false /\
  URLSearchParams.get "tag" (params_of "/blog") = Null /\
  resolvedValue
    (resolve
       (resultingUrl
          (resolve "/blog" "tag" Undefined (mkOptions None (Some false))))
       "tag" Undefined no_options)
  = Text "null".
Proof.
  split; [reflexivity|]. split; [reflexivity|].
  apply (read_absent_without_nullDeletes "/blog" "tag"
           (mkOptions None (Some false)) no_options); reflexivity.
Defined.

End CodecExtras.

(** ** The hook across renders and runs of calls *)

Module HookFacts.
Import Str ParamsFacts ResolveFacts NavigateFacts WriteFacts.

Lemma history_setParam (k : string) (o : Options) (v : Value)
    (ov : Options) (p : Page) :
  history (setParam k o v ov p) =
  commit (historyState_of (spread o ov))
    (Some (resolvedValue (resolve (href (history p)) k v (spread o ov))))
    (resultingUrl (resolve (href (history p)) k v (spread o ov)))
    (history p).
Proof. rewrite setParam_eq. cbn [history]. now rewrite handleParam_eq. Qed.

Lemma cell_setParam (k : string) (o : Options) (v : Value)
    (ov : Options) (p : Page) :
  cell (setParam k o v ov p) =
  Some (snd (update k v (spread o ov) (params_at (history p)))).
Proof.
  rewrite setParam_eq. cbn [cell]. rewrite handleParam_eq. cbn [snd].
  now rewrite value_resolve.
Qed.

Lemma href_setParam (k : string) (o : Options) (v : Value)
    (ov : Options) (p : Page) :
  href (history (setParam k o v ov p)) =
  href (fst (handleParam k v (spread o ov) (history p))).
Proof. now rewrite setParam_eq. Qed.

Lemma href_render (k : string) (v : Value) (o : Options) (p : Page) :
  href (history (fst (useQueryParam k v o p))) =
  href (fst (handleParam k v o (history p))).
Proof. now rewrite useQueryParam_eq. Qed.

(** After a request that writes, the key occurs at most once. *)
Lemma written_once (k : string) (v : Value) (o : Options)
    (l : URLSearchParams.t) :
  writes v o = true ->
  URLSearchParams.occurrences k (fst (update k v o l)) <= 1 /\
  URLSearchParams.get k (fst (update k v o l)) = v /\
  snd (update k v o l) = v.
Proof.
  destruct v as [| |s]; cbn [writes]; intros Hw; [discriminate| |].
  - rewrite update_null, Hw. cbn [fst snd].
    rewrite occurrences_delete, get_delete. auto.
  - rewrite update_text. cbn [fst snd].
    rewrite occurrences_set, get_set. auto.
Qed.

(** A read with [nullDeletes] true at parameters where the key occurs at
    most once leaves the parameters, and so the document URL when its path
    loses no second slash. *)
Lemma read_keeps_params (k : string) (o : Options) (h : History) :
  nullDeletes_of o = true ->
  URLSearchParams.occurrences k (params_at h) <= 1 ->
  params_at (fst (handleParam k Undefined o h)) = params_at h.
Proof.
  intros Hn Hone. rewrite params_after.
  destruct (is_empty _); [reflexivity|].
  rewrite (update_read_default _ _ _ Hn). cbn [fst].
  now apply reread_same.
Qed.

Lemma back_setParam (k : string) (o : Options) (v : Value)
    (ov : Options) (p : Page) :
  back (history (setParam k o v ov p)) =
  if is_push (historyState_of (spread o ov))
  then current (history p) :: back (history p)
  else back (history p).
Proof.
  rewrite history_setParam.
  now destruct (historyState_of (spread o ov)).
Qed.

Lemma forward_setParam (k : string) (o : Options) (v : Value)
    (ov : Options) (p : Page) :
  forward (history (setParam k o v ov p)) =
  if is_push (historyState_of (spread o ov))
  then []
  else forward (history p).
Proof.
  rewrite history_setParam.
  now destruct (historyState_of (spread o ov)).
Qed.

End HookFacts.

Section HookExtras.
Import Str ParamsFacts ResolveFacts NavigateFacts WriteFacts HookFacts.

(** X6. A hook called with a string as its value writes that string on
    every render: after the setter has stored [v], the next render still
    returns [v] as the state, but the URL carries the hook's own value [d]
    for the key. *)
Theorem render_with_value_rewrites_url
    (k d v : string) (o ov : Options) (p : Page) :
  let p1 := setParam k o (Text v) ov p in
  let out := useQueryParam k (Text d) o p1 in
  snd out = Text v /\
  cell (fst out) = Some (Text v) /\
  URLSearchParams.get k (params_at (history (fst out))) = Text d.
Proof.
  intros p1 out. subst out.
  rewrite useQueryParam_eq. cbn [fst snd cell history].
  rewrite params_after, target_of_text, update_text. cbn [fst].
  subst p1. rewrite cell_setParam, update_text. cbn [snd].
  repeat split. apply get_set.
Qed.

(** X7. A hook called without a value and with [nullDeletes] true leaves
    the query alone when it renders after a write of its setter whose
    target was not empty: the state is the value written, and the
    parameters and the query text of the document URL are those the setter
    left. *)
Theorem render_after_write_keeps_query
    (k : string) (newValue : Value) (o ov : Options) (p : Page) :
  writes newValue (spread o ov) = true ->
  nullDeletes_of o = true ->
  is_empty (resultingUrl
              (resolve (href (history p)) k newValue (spread o ov))) = false ->
  let p1 := setParam k o newValue ov p in
  let out := useQueryParam k Undefined o p1 in
  snd out = newValue /\
  cell (fst out) = Some newValue /\
  params_at (history (fst out)) = params_at (history p1) /\
  Url.search (href (history (fst out))) = Url.search (href (history p1)).
Proof.
  intros Hw Hn Ht p1 out. subst out.
  destruct (written_once k newValue (spread o ov)
              (params_at (history p)) Hw) as (Hone & Hget & Hsnd).
  assert (H1 : params_at (history p1)
               = fst (update k newValue (spread o ov) (params_at (history p)))).
  { subst p1. rewrite setParam_eq. cbn [history].
    now rewrite params_after, Ht. }
  assert (Hu1 : href (history p1)
                = url_of (kept_path (Url.pathname (href (history p))))
                    (params_at (history p1))).
  { rewrite H1. subst p1. rewrite href_setParam, href_after. now rewrite Ht. }
  assert (Hp : params_at (history (fst (useQueryParam k Undefined o p1)))
               = params_at (history p1)).
  { rewrite useQueryParam_eq. cbn [fst history].
    apply read_keeps_params; [exact Hn | now rewrite H1]. }
  rewrite useQueryParam_eq. cbn [fst snd cell].
  split; [|split; [|split]].
  - subst p1. now rewrite cell_setParam, Hsnd.
  - subst p1. now rewrite cell_setParam, Hsnd.
  - rewrite useQueryParam_eq in Hp. exact Hp.
  - cbn [history]. rewrite href_after.
    destruct (is_empty (resultingUrl
                          (resolve (href (history p1)) k Undefined o)));
      [reflexivity|].
    rewrite (update_read_default _ _ _ Hn). cbn [fst].
    rewrite reread_same by (now rewrite H1).
    rewrite Hu1 at 2. now rewrite !search_url_of.
Qed.

Lemma render_after_write_keeps_query_witness :
  writes (Text "css") (spread no_options no_options) = true /\
  nullDeletes_of no_options = true /\
  is_empty (resultingUrl
              (resolve (href (history (page_at "/blog?sort=new"))) "tag"
                 (Text "css") (spread no_options no_options))) = false /\
  let p1 := setParam "tag" no_options (Text "css") no_options
              (page_at "/blog?sort=new") in
  params_at (history (fst (useQueryParam "tag" Undefined no_options p1)))
  = params_at (history p1).
Proof.
  split; [reflexivity|]. split; [reflexivity|]. split; [reflexivity|].
  apply (render_after_write_keeps_query "tag" (Text "css")
           no_options no_options (page_at "/blog?sort=new"));
    reflexivity.
Defined.

Lemma setParams_cons (k : string) (o : Options) (c : Value * Options)
    (calls : list (Value * Options)) (p : Page) :
  setParams k o (c :: calls) p =
  setParams k o calls (setParam k o (fst c) (snd c) p).
Proof. reflexivity. Qed.

(** X8. In a run of setter calls every call in [push] mode adds one entry
    behind the current one and no call removes one: the entries that were
    back stay where they were, under as many new ones as there were
    pushes. *)
Theorem run_adds_one_entry_per_push
    (k : string) (o : Options) (calls : list (Value * Options)) (p : Page) :
  exists added : list Entry,
    back (history (setParams k o calls p)) = (added ++ back (history p))%list
    /\ List.length added = pushes o calls.
Proof.
  revert p. induction calls as [|c calls IH]; intros p.
  - exists []. split; reflexivity.
  - rewrite setParams_cons.
    destruct (IH (setParam k o (fst c) (snd c) p)) as (added & Hb & Hl).
    rewrite back_setParam in Hb. unfold pushes in *. cbn [filter].
    destruct (is_push (historyState_of (spread o (snd c)))).
    + exists (added ++ [current (history p)])%list. split.
      * now rewrite <- app_assoc.
      * rewrite length_app. cbn [List.length]. lia.
    + exists added. split; assumption.
Qed.

(** X9. A run of setter calls none of which is in [push] mode changes no
    entry but the current one: what is back, what is forward and the number
    of entries are as before. *)
Theorem run_of_replaces_keeps_entries
    (k : string) (o : Options) (calls : list (Value * Options)) (p : Page) :
  pushes o calls = 0 ->
  let h' := history (setParams k o calls p) in
  back h' = back (history p) /\
  forward h' = forward (history p) /\
  entries h' = entries (history p).
Proof.
  revert p. induction calls as [|c calls IH]; intros p Hz h'; subst h'.
  - repeat split.
  - rewrite setParams_cons. unfold pushes in Hz. cbn [filter] in Hz.
    destruct (is_push (historyState_of (spread o (snd c)))) eqn:E;
      [discriminate|].
    destruct (IH (setParam k o (fst c) (snd c) p) Hz) as (Hb & Hf & He).
    rewrite Hb, Hf, He. unfold entries.
    rewrite back_setParam, forward_setParam, E. repeat split.
Qed.

Lemma run_of_replaces_keeps_entries_witness :
  let calls := [(Text "a", no_options); (Null, no_options)] in
  let p := page_at "/blog" in
  pushes no_options calls = 0 /\
  entries (history (setParams "tag" no_options calls p))
  = entries (history p).
Proof.
  intros calls p. split; [reflexivity|].
  apply (run_of_replaces_keeps_entries "tag" no_options calls p).
  reflexivity.
Defined.

End HookExtras.

(** ** The blog page *)

Module BlogFacts.
Import Blog.

Lemma strict_eq_true (a b : Value) : strict_eq a b = true -> a = b.
Proof.
  destruct a, b; simpl; try discriminate; try reflexivity.
  intros H. apply String.eqb_eq in H. now subst.
Qed.

Lemma strict_eq_refl (a : Value) : strict_eq a a = true.
Proof. destruct a; simpl; auto using String.eqb_refl. Qed.

Section Page.
Variable kebabCase : string -> string.
Variable Post : Type.
Variable frontmatter_tags : Post -> list string.

Lemma BlogPage_eq (tags : list Tag) (posts : list Post) (p : Page) :
  BlogPage kebabCase frontmatter_tags tags posts p =
  let out := useQueryParam "tag" Undefined no_options p in
  let all := insertAllTag kebabCase tags (List.length posts) in
  (fst out,
   mkView all (snd out)
     (filterPostsByTag frontmatter_tags
        (find (fun tag => strict_eq (slug_of tag) (snd out)) all) posts)).
Proof.
  unfold BlogPage.
  now destruct (useQueryParam "tag" Undefined no_options p).
Qed.

(** Only a tag with a non-empty string for a slug filters. *)
Lemma falsy_selection (v : Value) (all : list Tag) (posts : list Post) :
  truthy v = false ->
  filterPostsByTag frontmatter_tags
    (find (fun tag => strict_eq (slug_of tag) v) all) posts = posts.
Proof.
  intros Hv. destruct (find _ all) as [t|] eqn:E; [|reflexivity].
  apply find_some in E as [_ E]. apply strict_eq_true in E.
  unfold filterPostsByTag. now rewrite E, Hv.
Qed.

Lemma first_activeTag (u : string) :
  snd (useQueryParam "tag" Undefined no_options (page_at u)) =
  URLSearchParams.get "tag" (params_of u).
Proof.
  rewrite useQueryParam_eq. cbn [snd cell page_at].
  rewrite ResolveFacts.handleParam_eq. cbn [snd].
  rewrite ResolveFacts.value_resolve. apply ResolveFacts.snd_update_read.
Qed.

Lemma titles_addSlugs (tags : list Tag) :
  map title (addSlugs kebabCase tags) = map title tags.
Proof. unfold addSlugs. rewrite map_map. reflexivity. Qed.

End Page.

End BlogFacts.

Section BlogExtras.
Import Blog BlogFacts ParamsFacts ResolveFacts HookFacts.

Variable kebabCase : string -> string.
Variable Post : Type.
Variable frontmatter_tags : Post -> list string.

(** X10. When no tag is titled [All], [insertAllTag] puts the tag [All]
    with slug [null] and the given count in front; the tags after it keep
    title, count and order, keep a slug they came with, get
    [kebabCase(title)] otherwise, and so all have one. *)
Theorem insertAllTag_adds_All (tags : list Tag) (n : nat) :
  includes "All" (map title tags) = false ->
  let r := insertAllTag kebabCase tags n in
  map title r = "All" :: map title tags /\
  map count r = n :: map count tags /\
  map slug r =
    Some Null ::
    map (fun t => match slug t with
                  | Some v => Some v
                  | None => Some (Text (kebabCase (title t)))
                  end) tags /\
  Forall (fun t => slug t <> None) r.
Proof.
  intros H r. subst r. unfold insertAllTag. rewrite H. cbn [negb].
  unfold addSlugs. cbn [map title count slug]. rewrite !map_map.
  repeat split. constructor; [discriminate|].
  apply Forall_map, Forall_forall. intros t _. unfold addSlug. cbn [slug].
  destruct (slug t); discriminate.
Qed.

(** X11. The list [insertAllTag] returns always has a tag titled [All],
    and [insertAllTag] returns such a list as it is: applied twice it does
    what it does applied once. *)
Theorem insertAllTag_idempotent (tags : list Tag) (n m : nat) :
  includes "All" (map title (insertAllTag kebabCase tags n)) = true /\
  insertAllTag kebabCase (insertAllTag kebabCase tags n) m
  = insertAllTag kebabCase tags n.
Proof.
  assert (H : includes "All" (map title (insertAllTag kebabCase tags n))
              = true).
  { unfold insertAllTag.
    destruct (includes "All" (map title tags)) eqn:E; cbn [negb];
      [exact E | reflexivity]. }
  split; [exact H|].
  unfold insertAllTag at 1. now rewrite H.
Qed.

(** X12. Opened at a URL without the parameter [tag], the page has no
    active tag and shows every post. *)
Theorem page_without_tag_shows_all
    (u : string) (tags : list Tag) (posts : list Post) :
  URLSearchParams.get "tag" (params_of u) = Null ->
  let view := snd (BlogPage kebabCase frontmatter_tags tags posts (page_at u)) in
  activeTag view = Null /\ filteredPosts view = posts.
Proof.
  intros Habs view. subst view. rewrite BlogPage_eq.
  cbn [snd activeTag filteredPosts]. rewrite first_activeTag, Habs.
  split; [reflexivity|]. now apply falsy_selection.
Qed.

(** X13. Opened at a URL whose parameter [tag] is a non-empty string, the
    page shows the posts that list the title of the first tag with that
    slug, in their order, and no other post. *)
Theorem page_with_tag_filters
    (u s : string) (tags : list Tag) (posts : list Post) (t : Tag) :
  URLSearchParams.get "tag" (params_of u) = Text s ->
  s <> "" ->
  find (fun tag => strict_eq (slug_of tag) (Text s))
    (insertAllTag kebabCase tags (List.length posts)) = Some t ->
  let view := snd (BlogPage kebabCase frontmatter_tags tags posts (page_at u)) in
  activeTag view = Text s /\
  filteredPosts view =
    filter (fun post => includes (title t) (frontmatter_tags post)) posts /\
  forall post, In post (filteredPosts view) <->
               In post posts /\ In (title t) (frontmatter_tags post).
Proof.
  intros Hu Hs Ht view. subst view. rewrite BlogPage_eq.
  cbn [snd activeTag filteredPosts]. rewrite first_activeTag, Hu, Ht.
  pose proof Ht as E. apply find_some in E as [_ E].
  apply strict_eq_true in E. unfold filterPostsByTag. rewrite E.
  assert (Hne : truthy (Text s) = true) by (destruct s; [congruence | auto]).
  rewrite Hne. split; [reflexivity|]. split; [reflexivity|].
  intros post. rewrite filter_In. unfold includes. rewrite existsb_exists.
  split.
  - intros [Hin (x & Hx & Hxe)]. apply String.eqb_eq in Hxe. subst. auto.
  - intros [Hin Ht']. split; [exact Hin|].
    exists (title t). split; [exact Ht' | apply String.eqb_refl].
Qed.

(** X14. Opened at a URL whose parameter [tag] is the slug of no tag, the
    page shows every post. *)
Theorem page_with_unknown_tag_shows_all
    (u s : string) (tags : list Tag) (posts : list Post) :
  URLSearchParams.get "tag" (params_of u) = Text s ->
  (forall t, In t (insertAllTag kebabCase tags (List.length posts)) ->
             slug_of t <> Text s) ->
  let view := snd (BlogPage kebabCase frontmatter_tags tags posts (page_at u)) in
  activeTag view = Text s /\ filteredPosts view = posts.
Proof.
  intros Hu Hno view. subst view. rewrite BlogPage_eq.
  cbn [snd activeTag filteredPosts]. rewrite first_activeTag, Hu.
  split; [reflexivity|].
  destruct (find _ _) as [t|] eqn:E; [|reflexivity].
  apply find_some in E as [Hin E]. apply strict_eq_true in E.
  now elim (Hno t Hin).
Qed.

End BlogExtras.

Lemma insertAllTag_adds_All_witness :
  let kebab := fun s : string => s in
  let tags := [Blog.mkTag "web-dev" None 3;
               Blog.mkTag "JS" (Some (Text "js")) 2] in
  Blog.includes "All" (map Blog.title tags) = false /\
  map Blog.slug (Blog.insertAllTag kebab tags 5)
  = [Some Null; Some (Text "web-dev"); Some (Text "js")].
Proof.
  intros kebab tags. split; [reflexivity|].
  apply (insertAllTag_adds_All kebab tags 5). reflexivity.
Defined.

Lemma page_without_tag_shows_all_witness :
  let posts := [["js"; "web-dev"]; ["ml"]] in
  URLSearchParams.get "tag" (params_of "/blog?sort=new") = Null /\
  Blog.filteredPosts
    (snd (Blog.BlogPage (fun s => s) (fun post : list string => post)
            [Blog.mkTag "js" None 1] posts (page_at "/blog?sort=new")))
  = posts.
Proof.
  intros posts. split; [reflexivity|].
  apply (page_without_tag_shows_all (fun s => s) (list string)
           (fun post => post) "/blog?sort=new" [Blog.mkTag "js" None 1]
           posts).
  reflexivity.
Defined.

Lemma page_with_tag_filters_witness :
  let posts := [["js"; "web-dev"]; ["ml"]; ["js"]] in
  let tags := [Blog.mkTag "ml" None 1; Blog.mkTag "js" None 2] in
  URLSearchParams.get "tag" (params_of "/blog?tag=js") = Text "js" /\
  "js" <> "" /\
  Blog.filteredPosts
    (snd (Blog.BlogPage (fun s => s) (fun post : list string => post)
            tags posts (page_at "/blog?tag=js")))
  = [["js"; "web-dev"]; ["js"]].
Proof.
  intros posts tags. split; [reflexivity|]. split; [discriminate|].
  apply (page_with_tag_filters (fun s => s) (list string)
           (fun post => post) "/blog?tag=js" "js" tags posts
           (Blog.mkTag "js" (Some (Text "js")) 2));
    [reflexivity | discriminate | reflexivity].
Defined.

Lemma page_with_unknown_tag_shows_all_witness :
  let posts := [["js"; "web-dev"]; ["ml"]] in
  let tags := [Blog.mkTag "ml" None 1; Blog.mkTag "js" None 2] in
  URLSearchParams.get "tag" (params_of "/blog?tag=css") = Text "css" /\
  Blog.filteredPosts
    (snd (Blog.BlogPage (fun s => s) (fun post : list string => post)
            tags posts (page_at "/blog?tag=css")))
  = posts.
Proof.
  intros posts tags. split; [reflexivity|].
  apply (page_with_unknown_tag_shows_all (fun s => s) (list string)
           (fun post => post) "/blog?tag=css" "css" tags posts);
    [reflexivity|].
  intros t Hin. cbn in Hin.
  destruct Hin as [<-|[<-|[<-|[]]]]; discriminate.
Defined.

(** ** Clicks on the tags of the blog page *)

Section ClickExtras.
Import Str Blog BlogFacts ParamsFacts ResolveFacts NavigateFacts HookFacts.

Variable kebabCase : string -> string.
Variable Post : Type.
Variable frontmatter_tags : Post -> list string.

Lemma entries_handleParam_replace (k : string) (v : Value) (o : Options)
    (h : History) :
  historyState_of o = Replace ->
  entries (fst (handleParam k v o h)) = entries h.
Proof. intros H. rewrite handleParam_eq, H. reflexivity. Qed.

(** What [setActiveTag] called with a string or [null] leaves. *)
Lemma after_setActiveTag (v : Value) (p : Page) :
  v <> Undefined ->
  let p1 := setActiveTag v p in
  cell p1 = Some v /\
  entries (history p1) = entries (history p) /\
  (is_empty (resultingUrl (resolve (href (history p)) "tag" v no_options))
   = false ->
   params_at (history p1)
   = fst (update "tag" v no_options (params_at (history p))) /\
   URLSearchParams.get "tag" (params_at (history p1)) = v /\
   URLSearchParams.occurrences "tag" (params_at (history p1)) <= 1).
Proof.
  intros Hv p1.
  assert (Hw : writes v (spread no_options no_options) = true)
    by (destruct v; [congruence | reflexivity | reflexivity]).
  destruct (written_once "tag" v _ (params_at (history p)) Hw)
    as (Hone & Hget & Hsnd).
  subst p1. unfold setActiveTag. split; [|split].
  - now rewrite cell_setParam, Hsnd.
  - rewrite setParam_eq. cbn [history].
    now apply entries_handleParam_replace.
  - intros Ht. rewrite setParam_eq. cbn [history].
    change (spread no_options no_options) with no_options in *.
    rewrite params_after, Ht. auto.
Qed.

(** The render of [BlogPage] on a page whose hook has a state. *)
Lemma render_with_state (v : Value) (tags : list Tag) (posts : list Post)
    (p : Page) :
  cell p = Some v ->
  let out := BlogPage kebabCase frontmatter_tags tags posts p in
  activeTag (snd out) = v /\
  entries (history (fst out)) = entries (history p) /\
  (URLSearchParams.occurrences "tag" (params_at (history p)) <= 1 ->
   params_at (history (fst out)) = params_at (history p)).
Proof.
  intros Hc out. subst out. rewrite BlogPage_eq. cbn [fst snd activeTag].
  rewrite useQueryParam_eq, Hc. cbn [fst snd history].
  split; [reflexivity|]. split.
  - now apply entries_handleParam_replace.
  - intros Hone. now apply read_keeps_params.
Qed.

(** X15. A click on a tag whose slug is a string makes that slug the
    active tag and adds no history entry: after the click the parameter
    [tag] of the document URL is the slug, and it still is after the render
    that follows, whose active tag is the slug; the number of history
    entries is what it was. *)
Theorem click_selects_tag
    (tag : Tag) (s : string) (tags : list Tag) (posts : list Post)
    (p : Page) :
  slug_of tag = Text s ->
  let p1 := onClick tag p in
  let out := BlogPage kebabCase frontmatter_tags tags posts p1 in
  URLSearchParams.get "tag" (params_at (history p1)) = Text s /\
  activeTag (snd out) = Text s /\
  URLSearchParams.get "tag" (params_at (history (fst out))) = Text s /\
  entries (history (fst out)) = entries (history p).
Proof.
  intros Hs p1 out. subst p1 out. unfold onClick. rewrite Hs.
  destruct (after_setActiveTag (Text s) p) as (Hc & He & Hu);
    [discriminate|].
  destruct (Hu (target_of_text _ _ _ _)) as (_ & Hget & Hone).
  destruct (render_with_state (Text s) tags posts (setActiveTag (Text s) p)
              Hc) as (Ha & He' & Hp).
  rewrite (Hp Hone), Ha, He', He, Hget. repeat split.
Qed.

(** X16. A click on a tag whose slug is [null], as the tag [All] that
    [insertAllTag] adds, makes the active tag [null], and the render that
    follows shows every post.  When the target of the click is not empty,
    the click removes the parameter [tag] from the document URL, and the
    render leaves it removed. *)
Theorem click_on_All_shows_all
    (tag : Tag) (tags : list Tag) (posts : list Post) (p : Page) :
  slug_of tag = Null ->
  let p1 := onClick tag p in
  let out := BlogPage kebabCase frontmatter_tags tags posts p1 in
  activeTag (snd out) = Null /\
  filteredPosts (snd out) = posts /\
  (is_empty (resultingUrl (resolve (href (history p)) "tag" Null no_options))
   = false ->
   URLSearchParams.has "tag" (params_at (history p1)) = false /\
   URLSearchParams.has "tag" (params_at (history (fst out))) = false).
Proof.
  intros Hs p1 out. subst p1 out. unfold onClick. rewrite Hs.
  destruct (after_setActiveTag Null p) as (Hc & _ & Hu); [discriminate|].
  destruct (render_with_state Null tags posts (setActiveTag Null p) Hc)
    as (Ha & _ & Hp).
  split; [exact Ha|]. split.
  - rewrite BlogPage_eq in *. cbn [snd activeTag filteredPosts] in *.
    apply falsy_selection. now rewrite Ha.
  - intros Ht. destruct (Hu Ht) as (_ & Hget & Hone).
    rewrite (Hp Hone), !has_get, Hget. split; reflexivity.
Qed.

(** X17. A tag list that has a tag titled [All] already is used as it is:
    no slug is computed, and when no tag brings a non-empty slug of its own
    the page shows every post, whatever the URL and the state. *)
Theorem tags_with_All_never_filter
    (tags : list Tag) (posts : list Post) (p : Page) :
  includes "All" (map title tags) = true ->
  (forall t, In t tags -> truthy (slug_of t) = false) ->
  let view := snd (BlogPage kebabCase frontmatter_tags tags posts p) in
  allTags view = tags /\ filteredPosts view = posts.
Proof.
  intros Hall Hno view. subst view. rewrite BlogPage_eq.
  cbn [snd allTags filteredPosts]. unfold insertAllTag. rewrite Hall.
  cbn [negb]. split; [reflexivity|].
  destruct (find _ tags) as [t|] eqn:E; [|reflexivity].
  apply find_some in E as [Hin _]. unfold filterPostsByTag.
  now rewrite (Hno t Hin).
Qed.

End ClickExtras.

Lemma click_selects_tag_witness :
  let tag := Blog.mkTag "JS" (Some (Text "js")) 2 in
  let p1 := Blog.onClick tag (page_at "/?sort=new") in
  Blog.slug_of tag = Text "js" /\
  URLSearchParams.get "tag" (params_at (history p1)) = Text "js".
Proof.
  intros tag p1. split; [reflexivity|].
  destruct (click_selects_tag (fun s => s) (list string) (fun post => post)
              tag "js" [] [] (page_at "/?sort=new") eq_refl) as (H & _).
  exact H.
Defined.

Lemma click_on_All_shows_all_witness :
  let tag := Blog.mkTag "All" (Some Null) 2 in
  let posts := [["js"]; ["ml"]] in
  let p := page_at "/blog?tag=js" in
  let p1 := Blog.onClick tag p in
  Blog.slug_of tag = Null /\
  Str.is_empty
    (resultingUrl (resolve (href (history p)) "tag" Null no_options))
    = false /\
  URLSearchParams.has "tag" (params_at (history p1)) = false /\
  Blog.filteredPosts
    (snd (Blog.BlogPage (fun s => s) (fun post : list string => post)
            [Blog.mkTag "js" None 1] posts p1)) = posts.
Proof.
  intros tag posts p p1. split; [reflexivity|]. split; [reflexivity|].
  destruct (click_on_All_shows_all (fun s => s) (list string)
              (fun post => post) tag [Blog.mkTag "js" None 1] posts
              p eq_refl) as (_ & H2 & H3).
  destruct (H3 eq_refl) as (H1 & _).
  split; [exact H1 | exact H2].
Defined.

Lemma tags_with_All_never_filter_witness :
  let tags := [Blog.mkTag "All" None 2; Blog.mkTag "js" None 1] in
  let posts := [["js"]; ["ml"]] in
  Blog.includes "All" (map Blog.title tags) = true /\
  Blog.filteredPosts
    (snd (Blog.BlogPage (fun s => s) (fun post : list string => post)
            tags posts (page_at "/blog?tag=js"))) = posts.
Proof.
  intros tags posts. split; [reflexivity|].
  apply (tags_with_All_never_filter (fun s => s) (list string)
           (fun post => post) tags posts (page_at "/blog?tag=js"));
    [reflexivity|].
  intros t Hin. cbn in Hin. destruct Hin as [<-|[<-|[]]]; reflexivity.
Defined.

(** ** The photo index *)

Module PhotoFacts.
Import Photos.

Section Photos.
Variable Photo : Type.
Variable Position : Type.
Variable caption : Photo -> string.
Variable position : Photo -> Position.

Lemma markers_from_nth (photos : list Photo) (index i : nat) (ph : Photo) :
  nth_error photos i = Some ph ->
  nth_error (markers_from caption position index photos) i =
  Some (mkMarker (position ph) (decimal (index + i + 1)) (caption ph)
          (Z.of_nat (index + i))).
Proof.
  revert index i. induction photos as [|x r IH]; intros index i.
  - destruct i; discriminate.
  - destruct i as [|i]; cbn [nth_error markers_from].
    + intros E. injection E as ->. now rewrite Nat.add_0_r.
    + intros E. rewrite (IH (S index) i E).
      now replace (S index + i) with (index + S i) by lia.
Qed.

Lemma length_markers_from (photos : list Photo) (index : nat) :
  List.length (markers_from caption position index photos)
  = List.length photos.
Proof.
  revert index. induction photos as [|x r IH]; intros index;
    cbn [markers_from List.length]; [reflexivity | now rewrite IH].
Qed.

Lemma currentPhoto_of_nat (photos : list Photo) (i : nat) (ph : Photo) :
  nth_error photos i = Some ph ->
  currentPhoto (Z.of_nat i) photos = Some ph.
Proof.
  intros E. unfold currentPhoto.
  assert (Hi : i < List.length photos)
    by (apply nth_error_Some; congruence).
  replace (0 <=? Z.of_nat i)%Z with true by (symmetry; apply Z.leb_le; lia).
  replace (Z.of_nat i <? Z.of_nat (List.length photos))%Z with true
    by (symmetry; apply Z.ltb_lt; lia).
  cbn [andb]. now rewrite Nat2Z.id.
Qed.

End Photos.

End PhotoFacts.

Section PhotoExtras.
Import Photos PhotoFacts.

Variable Photo : Type.
Variable Position : Type.
Variable caption : Photo -> string.
Variable position : Photo -> Position.

(** X18. [addMarkers] makes one marker per photo, in order: the marker of
    the photo at index [i] stands at its position, is titled with its
    caption and labelled [i + 1], and its click sets [modal] to an index at
    which [currentPhoto] is that photo. *)
Theorem marker_click_opens_its_photo
    (photos : list Photo) (i : nat) (ph : Photo) :
  nth_error photos i = Some ph ->
  List.length (addMarkers caption position photos) = List.length photos /\
  exists m,
    nth_error (addMarkers caption position photos) i = Some m /\
    marker_position m = position ph /\
    marker_title m = caption ph /\
    label m = decimal (i + 1) /\
    currentPhoto (click m) photos = Some ph.
Proof.
  intros E. split; [apply length_markers_from|].
  unfold addMarkers. rewrite (markers_from_nth _ _ caption position photos 0 i ph E).
  eexists. split; [reflexivity|]. cbn.
  repeat split. now apply currentPhoto_of_nat.
Qed.

(** X19. [currentPhoto] is a photo exactly when [modal] is an index of
    the list, from [0] to its length excluded, and is then the photo at
    that index; a negative [modal] or one past the end gives none. *)
Theorem currentPhoto_in_bounds (modal : Z) (photos : list Photo) :
  (currentPhoto modal photos <> None <->
   (0 <= modal < Z.of_nat (List.length photos))%Z) /\
  (forall ph, currentPhoto modal photos = Some ph ->
              nth_error photos (Z.to_nat modal) = Some ph).
Proof.
  unfold currentPhoto.
  destruct (0 <=? modal)%Z eqn:E0; cbn [andb].
  - destruct (modal <? Z.of_nat (List.length photos))%Z eqn:E1.
    + apply Z.leb_le in E0. apply Z.ltb_lt in E1. split.
      * split; [lia|]. intros _. apply nth_error_Some. lia.
      * auto.
    + apply Z.ltb_ge in E1. split; [|discriminate].
      split; [congruence | lia].
  - apply Z.leb_gt in E0. split; [|discriminate].
    split; [congruence | lia].
Qed.

End PhotoExtras.

Lemma marker_click_opens_its_photo_witness :
  let photos := ["Lake"; "Peak"; "Bay"] in
  nth_error photos 1 = Some "Peak" /\
  exists m,
    nth_error (Photos.addMarkers (fun ph : string => ph)
                 (fun ph : string => ph) photos) 1 = Some m /\
    Photos.label m = "2" /\
    Photos.currentPhoto (Photos.click m) photos = Some "Peak".
Proof.
  intros photos. split; [reflexivity|].
  destruct (marker_click_opens_its_photo string string (fun ph => ph)
              (fun ph => ph) photos 1 "Peak" eq_refl)
    as (_ & m & Hm & _ & _ & Hl & Hc).
  exists m. repeat split; assumption.
Defined.

(** ** The shape of the target URL *)

Section TargetExtras.
Import Str StrFacts UrlFacts ParamsFacts ResolveFacts NavigateFacts WriteFacts.
Import HookFacts.

(** X20. After a request that writes and whose target is not empty, a
    read with [nullDeletes] true returns the value written and leaves the
    document URL as the write left it, provided the path did not end in two
    slashes: the URL a setter call leaves is one a later read does not
    change. *)
Theorem read_after_write_same_url
    (k : string) (v : Value) (o o' : Options) (h : History) :
  writes v o = true ->
  nullDeletes_of o' = true ->
  ends_with_slash (strip_trailing_slash (Url.pathname (href h))) = false ->
  is_empty (resultingUrl (resolve (href h) k v o)) = false ->
  let h1 := fst (handleParam k v o h) in
  href (fst (handleParam k Undefined o' h1)) = href h1 /\
  snd (handleParam k Undefined o' h1) = v.
Proof.
  intros Hw Hn Hs Ht h1.
  destruct (written_once k v o (params_at h) Hw) as (Hone & Hget & _).
  assert (Hp : params_at h1 = fst (update k v o (params_at h)))
    by (subst h1; now rewrite params_after, Ht).
  assert (Hu : href h1
               = url_of (kept_path (Url.pathname (href h))) (params_at h1))
    by (rewrite Hp; subst h1; now rewrite href_after, Ht).
  split.
  - rewrite href_after.
    destruct (is_empty (resultingUrl (resolve (href h1) k Undefined o')));
      [reflexivity|].
    rewrite (update_read_default _ _ _ Hn). cbn [fst].
    rewrite reread_same by (now rewrite Hp).
    etransitivity; [|symmetry; exact Hu]. f_equal.
    rewrite Hu, pathname_url_of. apply kept_path_idem, Hs.
  - rewrite handleParam_eq. cbn [snd].
    rewrite value_resolve, snd_update_read. fold (params_at h1).
    now rewrite Hp.
Qed.

Lemma read_after_write_same_url_witness :
  let h := history (page_at "/blog/?sort=new#top") in
  let h1 := fst (handleParam "tag" (Text "a b") no_options h) in
  writes (Text "a b") no_options = true /\
  nullDeletes_of no_options = true /\
  ends_with_slash (strip_trailing_slash (Url.pathname (href h))) = false /\
  is_empty (resultingUrl (resolve (href h) "tag" (Text "a b") no_options))
    = false /\
  href (fst (handleParam "tag" Undefined no_options h1)) = href h1.
Proof.
  intros h h1. do 4 (split; [reflexivity|]).
  apply (read_after_write_same_url "tag" (Text "a b") no_options no_options
           h); reflexivity.
Defined.

(** X21. At a URL whose path is [/] the target has no path: it is the
    query alone, and the empty string when the request leaves no
    parameter. *)
Theorem root_target_is_the_query
    (u k : string) (v : Value) (o : Options) :
  Url.pathname u = "/" ->
  let r := resolve u k v o in
  resultingUrl r = Url.search (resultingUrl r) /\
  (params_of (resultingUrl r) = [] -> resultingUrl r = "").
Proof.
  intros Hp r. subst r.
  rewrite search_resolve, params_resolve, resolve_eq.
  cbn [resultingUrl fst]. unfold target_of. rewrite Hp. cbn.
  split; [reflexivity|]. intros ->. reflexivity.
Qed.

Lemma root_target_is_the_query_witness :
  Url.pathname "/?tag=js" = "/" /\
  resultingUrl (resolve "/?tag=js" "tag" Null no_options) = "".
Proof.
  split; [reflexivity|].
  destruct (root_target_is_the_query "/?tag=js" "tag" Null no_options
              eq_refl) as [_ H].
  apply H. reflexivity.
Defined.

End TargetExtras.

Lemma currentPhoto_in_bounds_witness :
  Photos.currentPhoto 1 ["Lake"; "Peak"] = Some "Peak" /\
  nth_error ["Lake"; "Peak"] (Z.to_nat 1) = Some "Peak".
Proof.
  split; [reflexivity|].
  apply (proj2 (currentPhoto_in_bounds string 1 ["Lake"; "Peak"]) "Peak").
  reflexivity.
Defined.

(** ** The setter, where its target is empty and where it is not *)

Section SetterExtras.
Import Str ParamsFacts ResolveFacts NavigateFacts HookFacts.

(** X22. After a call of the setter with a string, or with a [null] that
    deletes, whose target is not empty, the hook's state is the value passed
    and the document URL carries the key exactly once with that value (a
    string) or not at all (a deletion).  The target of a string is never
    empty. *)
Theorem setParam_url_matches_state_off_empty
    (key : string) (options override : Options) (newValue : Value)
    (p : Page) :
  writes newValue (spread options override) = true ->
  is_empty (resultingUrl
              (resolve (href (history p)) key newValue
                 (spread options override))) = false ->
  let p' := setParam key options newValue override p in
  cell p' = Some newValue /\
  URLSearchParams.get key (params_at (history p')) = newValue /\
  URLSearchParams.occurrences key (params_at (history p')) =
    (if is_null newValue then 0 else 1) /\
  forall s : string,
    is_empty (resultingUrl
                (resolve (href (history p)) key (Text s)
                   (spread options override))) = false.
Proof.
  intros Hw Ht p'. subst p'. rewrite cell_setParam, setParam_eq.
  cbn [history]. rewrite params_after, Ht.
  split; [|split; [|split; [|intros s; apply target_of_text]]].
  - now destruct (written_once key newValue _ (params_at (history p)) Hw)
      as (_ & _ & ->).
  - now destruct (written_once key newValue _ (params_at (history p)) Hw)
      as (_ & -> & _).
  - destruct newValue as [| |s]; cbn [writes] in Hw; [discriminate| |].
    + rewrite update_null, Hw. cbn [fst is_null]. apply occurrences_delete.
    + rewrite update_text. cbn [fst is_null]. apply occurrences_set.
Qed.

Lemma setParam_url_matches_state_off_empty_witness :
  let p := page_at "/?tag=js&sort=new" in
  let p' := setParam "tag" no_options Null no_options p in
  writes Null (spread no_options no_options) = true /\
  is_empty (resultingUrl
              (resolve (href (history p)) "tag" Null
                 (spread no_options no_options))) = false /\
  cell p' = Some Null /\
  URLSearchParams.get "tag" (params_at (history p')) = Null.
Proof.
  intros p p'. split; [reflexivity|]. split; [reflexivity|].
  destruct (setParam_url_matches_state_off_empty "tag" no_options
              no_options Null p eq_refl eq_refl) as (H1 & H2 & _).
  split; [exact H1 | exact H2].
Defined.

(** X23. At the site root, a [null] that deletes the key when the URL has
    no parameter with another name has the empty string for its target:
    the state becomes [null] while the document URL, and with it what the
    key reads as there, stay as they were. *)
Theorem delete_at_root_keeps_url
    (key : string) (options override : Options) (p : Page) :
  nullDeletes_of (spread options override) = true ->
  Url.pathname (href (history p)) = "/" ->
  URLSearchParams.others key (params_at (history p)) = [] ->
  let p' := setParam key options Null override p in
  resultingUrl (resolve (href (history p)) key Null (spread options override))
    = "" /\
  cell p' = Some Null /\
  href (history p') = href (history p) /\
  URLSearchParams.get key (params_at (history p'))
    = URLSearchParams.get key (params_at (history p)).
Proof.
  intros Hn Hp Ho p'.
  assert (Ht : resultingUrl
                 (resolve (href (history p)) key Null
                    (spread options override)) = "").
  { rewrite resolve_eq, update_null, Hn. cbn [fst resultingUrl].
    fold (params_at (history p)).
    unfold URLSearchParams.others in Ho. rewrite Ho, Hp. reflexivity. }
  assert (Hh : href (history p') = href (history p)).
  { subst p'. rewrite href_setParam, href_after, Ht. reflexivity. }
  split; [exact Ht|]. split; [|split; [exact Hh|]].
  - subst p'. rewrite cell_setParam, update_null, Hn. reflexivity.
  - unfold params_at. now rewrite Hh.
Qed.

Lemma delete_at_root_keeps_url_witness :
  let p := page_at "/?tag=js" in
  let p' := setParam "tag" no_options Null no_options p in
  nullDeletes_of (spread no_options no_options) = true /\
  Url.pathname (href (history p)) = "/" /\
  URLSearchParams.others "tag" (params_at (history p)) = [] /\
  cell p' = Some Null /\
  URLSearchParams.get "tag" (params_at (history p')) = Text "js".
Proof.
  intros p p'. do 3 (split; [reflexivity|]).
  destruct (delete_at_root_keeps_url "tag" no_options no_options p
              eq_refl eq_refl eq_refl) as (_ & H1 & _ & H2).
  split; [exact H1 | exact H2].
Defined.

End SetterExtras.
